(** * PublishCallback: a completion adapter around [spark_send_event]

    Shallow embedding of [src/PublishCallback.h].  The class wraps the
    Device OS primitive [spark_send_event], which either rejects a publish
    at once or accepts it and later calls a C callback with an opaque
    context pointer.  The embedding keeps

    - the adapter objects in a heap indexed by their address, because the
      class hands out [this] as the context pointer and the callback casts
      that pointer back to an object;
    - the calls that cross the boundary of the class (the call to the
      primitive, the calls of the user's [std::function]) in a trace, and
      what each of them can see of the adapters, their [complete]
      members, at the moment it is made;
    - the registrations Device OS has accepted and not yet called back.

    Member functions are computations in a small state-and-failure monad
    over that world; a computation fails exactly where the C++ has no
    defined behaviour (a member access through a pointer to no live
    object). *)

From stdpp Require Import base option list gmap strings.
From Stdlib Require Import ZArith Lia Ascii.

Local Open Scope Z_scope.

(** ** Values shared with Device OS *)

(** Addresses; [NULL] is the null pointer. *)
Abbreviation addr := Z.
Definition NULL : addr := 0.

(** [const char *]: a string, or the null pointer. *)
Abbreviation c_str := (option string).

(** Values of the function-pointer type [completion_callback].  The only
    function of this repository whose address is ever taken is
    [PublishCallback::staticCallback]; any other value is code this
    development knows nothing about. *)
Inductive completion_callback : Type :=
| staticCallback_ptr
| foreign_callback (n : nat).

(** [spark_send_event_data]: the descriptor Device OS reads when a publish
    is submitted. *)
Module EventData.

Record t : Type := mk {
  size : Z;
  handler_callback : completion_callback;
  handler_data : addr
}.

End EventData.

(** Calls that cross the boundary of the class, in the order they happen.
    [inv] is a ghost number: the rank of the call to [spark_send_event] on
    whose behalf the event happens. *)
Inductive Event : Type :=
| SendEvent (inv : nat) (eventName eventData : c_str) (ttl flags : Z)
            (reserved : addr) (accepted : bool)
| Completion (inv : nat) (this : addr) (error : Z) (data : addr).

(** What [Particle.h] declares and this repository only uses.  Theorems
    hold for every instance. *)
Class DeviceOS : Type := {
  (** state the user's completion handlers act on *)
  App : Type;
  (** [Error::UNKNOWN] *)
  Error_UNKNOWN : Z;
  (** [sizeof(spark_send_event_data)] *)
  sizeof_spark_send_event_data : Z;
  (** [PublishFlags], its [operator|], its [value()], and [PublishFlags()],
      the default of every [flags2] parameter *)
  PublishFlags : Type;
  flags_or : PublishFlags -> PublishFlags -> PublishFlags;
  flags_value : PublishFlags -> Z;
  flags_default : PublishFlags;
  (** whether [spark_send_event] accepts a request, given everything that
      happened at the boundary so far, the [complete] member of every
      adapter as it is when the call is made (Device OS is handed a
      pointer into the adapter and shares its memory), and the arguments
      of the call *)
  accepts : list Event -> gmap Z bool -> c_str -> c_str -> Z -> Z -> addr -> bool
}.

Section Adapter.

Context `{os : DeviceOS}.

(** ** The class *)

(** The type of the completion slot, a [std::function] from an [int] and a
    [const void] pointer to [void]: empty, or a callable.  Besides its two
    arguments a callable has before it what [isComplete] would answer for
    each adapter at the moment it is called. *)
Definition std_function : Type :=
  option (Z -> addr -> gmap Z bool -> App -> App).

(** Data members, in declaration order (lines 147-149). *)
Record PublishCallback : Type := mkPublishCallback {
  eventData : EventData.t;
  complete : bool;
  completion : std_function
}.

(** [eventData] is the first non-static data member of a class with no
    base class and no virtual member function, so it sits at the address of
    the object. *)
Definition offsetof_eventData : Z := 0.
Definition addr_of_eventData (this : addr) : addr := this + offsetof_eventData.

(** A callback Device OS owes: the two fields it copied out of the
    descriptor, and the ghost rank of the call that registered it. *)
Record Registration : Type := mkRegistration {
  reg_callback : completion_callback;
  reg_data : addr;
  reg_inv : nat
}.

Record World : Type := mkWorld {
  heap : gmap Z PublishCallback;
  app : App;
  trace : list Event;
  pending : list Registration;
  (** ghost: number of calls to [spark_send_event] so far *)
  sends : nat;
  (** ghost: rank of the call being served *)
  serving : nat
}.

(** What [isComplete] answers for each live adapter. *)
Definition flag_view (w : World) : gmap Z bool := complete <$> heap w.

(** ** State-and-failure monad *)

Definition M (A : Type) : Type := World -> option (A * World).

Definition ret {A} (a : A) : M A := fun w => Some (a, w).

Definition bind {A B} (c : M A) (k : A -> M B) : M B :=
  fun w => match c w with
           | Some (a, w1) => k a w1
           | None => None
           end.

Definition undefined {A} : M A := fun _ => None.

Notation "'do' x <- c ; k" := (bind c (fun x => k))
  (at level 10, x name, c at level 100, k at level 200).
Notation "c ;;; k" := (bind c (fun _ => k))
  (at level 100, k at level 200, right associativity).

(** Read and write of the object a pointer designates. *)
Definition load (p : addr) : M PublishCallback :=
  fun w => match heap w !! p with
           | Some o => Some (o, w)
           | None => None
           end.

Definition store (p : addr) (o : PublishCallback) : M unit :=
  fun w => Some (tt, mkWorld (<[p := o]> (heap w)) (app w) (trace w)
                             (pending w) (sends w) (serving w)).

(** Assignments to one data member through [this]. *)
Definition set_eventData (this : addr) (d : EventData.t) : M unit :=
  do o <- load this;
  store this (mkPublishCallback d (complete o) (completion o)).

Definition set_complete (this : addr) (b : bool) : M unit :=
  do o <- load this;
  store this (mkPublishCallback (eventData o) b (completion o)).

Definition set_completion (this : addr) (f : std_function) : M unit :=
  do o <- load this;
  store this (mkPublishCallback (eventData o) (complete o) f).

(** [operator()] of a non-empty [std::function] held by the object at
    [this].  The callable acts on the application's state and may read the
    [complete] member of any adapter as it is during the call; it does not
    write to an adapter, which is outstanding for as long as its handler
    runs and which the class leaves to nobody else in that time. *)
Definition call_completion (this : addr)
    (f : Z -> addr -> gmap Z bool -> App -> App)
    (error : Z) (data : addr) : M unit :=
  fun w => Some (tt, mkWorld (heap w) (f error data (flag_view w) (app w))
                             (trace w ++ [Completion (serving w) this error data])
                             (pending w) (sends w) (serving w)).

(** [initEventData] (lines 132-136). *)
Definition initEventData (this : addr) : M unit :=
  do o <- load this;
  set_eventData this
    (EventData.mk sizeof_spark_send_event_data
                  (EventData.handler_callback (eventData o))
                  (EventData.handler_data (eventData o))) ;;;
  do o <- load this;
  set_eventData this
    (EventData.mk (EventData.size (eventData o))
                  staticCallback_ptr
                  (EventData.handler_data (eventData o))) ;;;
  do o <- load this;
  set_eventData this
    (EventData.mk (EventData.size (eventData o))
                  (EventData.handler_callback (eventData o))
                  this).

(** The two constructors (lines 22-24 and 35-37).  [this] is the storage
    the object is built in and [raw] what that storage held in place of
    [eventData], which no member initialiser touches. *)
Definition PublishCallback_new (this : addr) (raw : EventData.t) : M unit :=
  store this (mkPublishCallback raw false None) ;;;
  initEventData this.

Definition PublishCallback_new_with (this : addr) (raw : EventData.t)
    (f : std_function) : M unit :=
  store this (mkPublishCallback raw false f) ;;;
  initEventData this.

(** The destructor (lines 29-30) does nothing; afterwards the storage holds
    no object. *)
Definition PublishCallback_delete (this : addr) : M unit :=
  do _ <- load this;
  fun w => Some (tt, mkWorld (delete this (heap w)) (app w) (trace w)
                             (pending w) (sends w) (serving w)).

(** [withCallback] (lines 54-57); returns [*this]. *)
Definition withCallback (this : addr) (f : std_function) : M addr :=
  set_completion this f ;;;
  ret this.

(** ** Device OS *)

(** The descriptor found at an address: the [eventData] member of the
    object that holds it. *)
Definition load_event_data (p : addr) : M EventData.t :=
  do o <- load (p - offsetof_eventData);
  ret (eventData o).

(** Modelled from the spec: [spark_send_event], the publish primitive of
    Device OS, of which the repository has only the call.  It returns
    whether the request was accepted; on acceptance it has copied the
    callback and its context out of the descriptor [reserved] points to and
    owes exactly one call of that callback; on rejection it owes none. *)
Definition spark_send_event (eventName eventData : c_str) (ttl flags : Z)
    (reserved : addr) : M bool :=
  fun w =>
    let i := sends w in
    let ok :=
      accepts (trace w) (flag_view w) eventName eventData ttl flags reserved in
    let tr := trace w ++ [SendEvent i eventName eventData ttl flags reserved ok] in
    if ok then
      match load_event_data reserved w with
      | Some (d, _) =>
          Some (true, mkWorld (heap w) (app w) tr
                  (pending w ++ [mkRegistration (EventData.handler_callback d)
                                                (EventData.handler_data d) i])
                  (S i) i)
      | None => None
      end
    else Some (false, mkWorld (heap w) (app w) tr (pending w) (S i) i).

(** ** Publishing *)

(** [publish_event] (lines 112-122). *)
Definition publish_event (this : addr) (eventName eventData : c_str)
    (ttl : Z) (flags : PublishFlags) : M unit :=
  set_complete this false ;;;
  do ok <- spark_send_event eventName eventData ttl (flags_value flags) this;
  if negb ok then
    do o <- load this;
    match completion o with
    | Some f => call_completion this f Error_UNKNOWN NULL
    | None => ret tt
    end
  else ret tt.

(** The overload with every parameter (lines 96-99). *)
Definition publish5 (this : addr) (eventName eventData : c_str) (ttl : Z)
    (flags1 flags2 : PublishFlags) : M unit :=
  publish_event this eventName eventData ttl (flags_or flags1 flags2).

(** The overload without a TTL (lines 80-83). *)
Definition publish4 (this : addr) (eventName eventData : c_str)
    (flags1 flags2 : PublishFlags) : M unit :=
  publish5 this eventName eventData 60 flags1 flags2.

(** The overload without event data or TTL (lines 66-69). *)
Definition publish3 (this : addr) (eventName : c_str)
    (flags1 flags2 : PublishFlags) : M unit :=
  publish4 this eventName None flags1 flags2.

(** [isComplete] (lines 127-129). *)
Definition isComplete (this : addr) : M bool :=
  do o <- load this;
  ret (complete o).

(** [staticCallback] (lines 138-145). *)
Definition staticCallback (error : Z) (data : addr) (callbackData : addr)
    (reserved : addr) : M unit :=
  let This := callbackData in
  do o <- load This;
  match completion o with
  | Some f => call_completion This f error data
  | None => ret tt
  end ;;;
  set_complete This true.

(** A call through a [completion_callback] value. *)
Definition call_callback (fp : completion_callback) (error : Z)
    (data callbackData reserved : addr) : M unit :=
  match fp with
  | staticCallback_ptr => staticCallback error data callbackData reserved
  | foreign_callback _ => undefined
  end.

(** Modelled from the spec: Device OS pays one of the callbacks it owes,
    the [k]-th, with an outcome of its choosing, and owes it no longer. *)
Definition deliver (k : nat) (error : Z) (data : addr) : M unit :=
  fun w =>
    match pending w !! k with
    | Some r =>
        call_callback (reg_callback r) error data (reg_data r) NULL
          (mkWorld (heap w) (app w) (trace w) (delete k (pending w))
                   (sends w) (reg_inv r))
    | None => None
    end.

(** ** Programs over the class *)

(** What the application and Device OS can do with adapters. *)
Inductive Action : Type :=
| New (this : addr) (raw : EventData.t)
| NewWith (this : addr) (raw : EventData.t) (f : std_function)
| Delete (this : addr)
| WithCallback (this : addr) (f : std_function)
| Publish3 (this : addr) (eventName : c_str) (flags1 flags2 : PublishFlags)
| Publish4 (this : addr) (eventName eventData : c_str)
           (flags1 flags2 : PublishFlags)
| Publish5 (this : addr) (eventName eventData : c_str) (ttl : Z)
           (flags1 flags2 : PublishFlags)
| PublishEvent (this : addr) (eventName eventData : c_str) (ttl : Z)
               (flags : PublishFlags)
| IsComplete (this : addr)
| Deliver (k : nat) (error : Z) (data : addr)
| StaticCallback (error : Z) (data callbackData reserved : addr).

Definition step (a : Action) : M unit :=
  match a with
  | New this raw => PublishCallback_new this raw
  | NewWith this raw f => PublishCallback_new_with this raw f
  | Delete this => PublishCallback_delete this
  | WithCallback this f => withCallback this f ;;; ret tt
  | Publish3 this n f1 f2 => publish3 this n f1 f2
  | Publish4 this n d f1 f2 => publish4 this n d f1 f2
  | Publish5 this n d ttl f1 f2 => publish5 this n d ttl f1 f2
  | PublishEvent this n d ttl f => publish_event this n d ttl f
  | IsComplete this => isComplete this ;;; ret tt
  | Deliver k e d => deliver k e d
  | StaticCallback e d cb r => staticCallback e d cb r
  end.

Fixpoint run (acts : list Action) : M unit :=
  match acts with
  | [] => ret tt
  | a :: rest => step a ;;; run rest
  end.

(** The object at [this] is live and its completion slot is not empty. *)
Definition has_handler (this : addr) (w : World) : bool :=
  match heap w !! this with
  | Some o => match completion o with Some _ => true | None => false end
  | None => false
  end.

(** An action that finds a handler in the slot of the adapter it publishes
    from or delivers to, and that is within the contract of Device OS: the
    trampoline is called by [deliver] only. *)
Definition ready (a : Action) (w : World) : bool :=
  match a with
  | Publish3 this _ _ _ | Publish4 this _ _ _ _ | Publish5 this _ _ _ _ _
  | PublishEvent this _ _ _ _ => has_handler this w
  | Deliver k _ _ =>
      match pending w !! k with
      | Some r => has_handler (reg_data r) w
      | None => false
      end
  | StaticCallback _ _ _ _ => false
  | _ => true
  end.

Fixpoint armed (acts : list Action) (w : World) : bool :=
  match acts with
  | [] => true
  | a :: rest =>
      ready a w &&
      match step a w with
      | Some (_, w1) => armed rest w1
      | None => false
      end
  end.

(** Handler runs on behalf of call [i], and callbacks still owed to it. *)
Definition completes (i : nat) (e : Event) : bool :=
  match e with
  | Completion j _ _ _ => bool_decide (j = i)
  | SendEvent _ _ _ _ _ _ _ => false
  end.

Definition owes (i : nat) (r : Registration) : bool :=
  bool_decide (reg_inv r = i).

Definition count {A} (p : A -> bool) (l : list A) : nat :=
  length (List.filter p l).

Definition completions (i : nat) (w : World) : nat :=
  count (completes i) (trace w).

Definition owed (i : nat) (w : World) : nat :=
  count (owes i) (pending w).

(** Every call made so far has seen its handler run once or is still owed
    its callback, never both; calls not yet made have neither; and a call
    the trace shows as rejected is owed nothing. *)
Definition exactly_once (w : World) : Prop :=
  (forall i, (i < sends w)%nat -> (completions i w + owed i w = 1)%nat) /\
  (forall i, (sends w <= i)%nat -> completions i w = 0%nat /\ owed i w = 0%nat) /\
  (forall i n d ttl fl ctx ok,
     SendEvent i n d ttl fl ctx ok ∈ trace w ->
     (i < sends w)%nat /\ (ok = false -> owed i w = 0%nat)).

(** The [complete] member of the object at [this], if there is one. *)
Definition settled (this : addr) (w : World) : option bool :=
  match heap w !! this with
  | Some o => Some (complete o)
  | None => None
  end.

(** The state at boot: the given objects, nothing published yet. *)
Definition boot (h : gmap Z PublishCallback) (a : App) : World :=
  mkWorld h a [] [] 0 0.

(** The descriptor of the object at [this] is as [initEventData] leaves
    it. *)
Definition record_ok (this : addr) (o : PublishCallback) : Prop :=
  eventData o =
  EventData.mk sizeof_spark_send_event_data staticCallback_ptr this.

Definition records_ok (w : World) : Prop :=
  forall this o, heap w !! this = Some o -> record_ok this o.

End Adapter.

(** ** A concrete platform, for running the definitions *)

(** Handlers log their arguments; a publish is accepted when its TTL is
    positive. *)
Definition demoOS : DeviceOS := {|
  App := list (Z * addr);
  Error_UNKNOWN := -100;
  sizeof_spark_send_event_data := 12;
  PublishFlags := Z;
  flags_or := Z.lor;
  flags_value := fun f => f;
  flags_default := 0;
  accepts := fun _ _ _ _ ttl _ _ => 0 <? ttl
|}.

Definition demo_log : @std_function demoOS :=
  Some (fun error data _ (l : list (Z * addr)) => l ++ [(error, data)]).

Definition demo_raw : EventData.t := EventData.mk 7 (foreign_callback 3) 99.

Definition demo_boot : @World demoOS := @boot demoOS ∅ [].

(** The example driver: build the adapter with a handler, publish with
    data and two flags; Device OS accepts and later reports success. *)
Definition demo_accepted : list (@Action demoOS) :=
  [@NewWith demoOS 16 demo_raw demo_log;
   @Publish4 demoOS 16 (Some "testEvent"%string) (Some "counter=1"%string) 1 2;
   @Deliver demoOS 0%nat 0 4096].

(** The same adapter, a publish Device OS rejects. *)
Definition demo_rejected : list (@Action demoOS) :=
  [@NewWith demoOS 16 demo_raw demo_log;
   @Publish5 demoOS 16 (Some "testEvent"%string) None 0 1 2].

(** The accepted publish settled, the adapter is used again and Device OS
    rejects. *)
Definition demo_reused : list (@Action demoOS) :=
  demo_accepted ++
  [@PublishEvent demoOS 16 (Some "testEvent"%string) (Some "counter=2"%string) 0 3].

(** An adapter built without a handler, and a publish Device OS rejects. *)
Definition demo_bare_rejected : list (@Action demoOS) :=
  [@New demoOS 16 demo_raw;
   @Publish5 demoOS 16 (Some "testEvent"%string) None 0 1 2].

(** An adapter built without a handler, an accepted publish, its callback. *)
Definition demo_bare_accepted : list (@Action demoOS) :=
  [@New demoOS 16 demo_raw;
   @Publish3 demoOS 16 (Some "testEvent"%string) 1 2;
   @Deliver demoOS 0%nat (-160) 0].

(** The adapter of the example driver once constructed, and the world that
    holds it and nothing else. *)
Definition demo_adapter : @PublishCallback demoOS :=
  mkPublishCallback (EventData.mk 12 staticCallback_ptr 16) false demo_log.

Definition demo_live : @World demoOS :=
  @mkWorld demoOS (<[16 := demo_adapter]> ∅) ([] : list (Z * addr)) [] [] 0 0.

(** A handler that logs, with the error code, whether it finds the adapter
    at 16 complete (1) or not (0); an adapter that holds it, its publish
    outstanding; and the world that holds that adapter. *)
Definition demo_spy : @std_function demoOS :=
  Some (fun error data seen (l : list (Z * addr)) =>
          l ++ [(error, match seen !! 16 with Some true => 1 | _ => 0 end)]).

Definition demo_spy_adapter : @PublishCallback demoOS :=
  mkPublishCallback (EventData.mk 12 staticCallback_ptr 16) false demo_spy.

Definition demo_spied : @World demoOS :=
  @mkWorld demoOS (<[16 := demo_spy_adapter]> ∅) ([] : list (Z * addr)) [] [] 0 0.

(** A platform whose primitive looks at the adapter it is handed: it
    refuses a publish from the adapter at 16 when it finds that adapter
    complete, and accepts otherwise. *)
Definition watchOS : DeviceOS := {|
  App := list (Z * addr);
  Error_UNKNOWN := -100;
  sizeof_spark_send_event_data := 12;
  PublishFlags := Z;
  flags_or := Z.lor;
  flags_value := fun f => f;
  flags_default := 0;
  accepts := fun _ seen _ _ _ _ _ =>
    match seen !! 16 with Some true => false | _ => true end
|}.

(** On that platform, an adapter whose last publish has settled. *)
Definition watch_adapter : @PublishCallback watchOS :=
  mkPublishCallback (EventData.mk 12 staticCallback_ptr 16) true None.

Definition watch_settled : @World watchOS :=
  @mkWorld watchOS (<[16 := watch_adapter]> ∅) ([] : list (Z * addr)) [] [] 0 0.

(** The world a program ends in, or the world it started in when it has no
    defined behaviour. *)
Definition final (acts : list (@Action demoOS)) (w : @World demoOS) : @World demoOS :=
  match run acts w with
  | Some (_, w') => w'
  | None => w
  end.

Definition demo_view (r : option (unit * @World demoOS)) :=
  match r with
  | Some (_, w) => Some (app w, trace w, pending w, settled 16 w)
  | None => None
  end.

(** * The example driver ([src/example.cpp]) *)

(** What the driver uses of Device OS beyond the class: the logger, whose
    output is part of what the application shows, and two publish flags. *)
Class Firmware `{os : DeviceOS} : Type := {
  (** [Log.info], given the formatted line *)
  log_info : string -> App -> App;
  PRIVATE : PublishFlags;
  WITH_ACK : PublishFlags
}.

Section Driver.

Context `{fw : Firmware}.

Local Notation "'do' x <- c ; k" := (bind c (fun x => k))
  (at level 10, x name, c at level 100, k at level 200).
Local Notation "c ;;; k" := (bind c (fun _ => k))
  (at level 100, k at level 200, right associativity).

(** [unsigned long] and [int] on the devices the driver is written for
    (32-bit ARM). *)
Definition ULONG_MODULUS : Z := 2 ^ 32.
Definition INT_MAX : Z := 2 ^ 31 - 1.
Definition INT_MIN : Z := - 2 ^ 31.

(** [PUBLISH_INTERVAL_MS] (line 8). *)
Definition PUBLISH_INTERVAL_MS : Z := 60000.

(** The conversion [%d] of the C library for an [int]: a minus sign for a
    negative number, then the decimal digits, ten at most. *)
Definition digit (n : Z) : ascii := ascii_of_nat (48 + Z.to_nat n).

Fixpoint dec_digits (fuel : nat) (n : Z) : string :=
  match fuel with
  | O => EmptyString
  | S f =>
      if n <? 10 then String (digit n) EmptyString
      else dec_digits f (n / 10) +:+ String (digit (n mod 10)) EmptyString
  end.

Definition format_d (n : Z) : string :=
  if n <? 0 then String "-"%char (dec_digits 10 (- n)) else dec_digits 10 n.

(** The number a string of decimal digits denotes, for checking the
    conversion. *)
Definition digit_value (c : ascii) : Z := Z.of_nat (nat_of_ascii c) - 48.

Fixpoint dec_value (acc : Z) (s : string) : Z :=
  match s with
  | EmptyString => acc
  | String c rest => dec_value (10 * acc + digit_value c) rest
  end.

(** [snprintf] into a buffer of [size] bytes, given the formatted text: the
    buffer receives at most [size - 1] characters of it. *)
Definition snprintf (size : nat) (text : string) : string :=
  String.substring 0 (size - 1) text.

(** The globals of the driver other than the adapter (lines 9 and 12). *)
Record Globals : Type := mkGlobals {
  lastPublish : Z;
  counter : Z
}.

Definition initial_globals : Globals := mkGlobals 0 0.

(** A call of [Log.info]. *)
Definition log (line : string) : M unit :=
  fun w => Some (tt, mkWorld (heap w) (log_info line (app w)) (trace w)
                             (pending w) (sends w) (serving w)).

(** The handler [setup] installs (lines 15-17): it logs the error code and
    ignores the payload. *)
Definition setup_handler (err : Z) (data : addr) (seen : gmap Z bool)
    : App -> App :=
  log_info ("callback called! err=" +:+ format_d err).

(** [setup] (lines 14-18); [pub] is the address of the global
    [pubCallback]. *)
Definition setup (pub : addr) : M unit :=
  withCallback pub (Some setup_handler) ;;;
  ret tt.

(** The test of line 21: unsigned subtraction of the last publish time from
    the clock reading, compared with the interval. *)
Definition due (now last : Z) : bool :=
  PUBLISH_INTERVAL_MS <=? (now - last) mod ULONG_MODULUS.

(** [loop] (lines 20-32).  [m1] and [m2] are what the two calls of
    [millis()] return and [connected] what [Particle.connected()] returns;
    the second reading and the connection state are used only where the
    source asks for them.  Incrementing an [int] that holds [INT_MAX] has
    no defined behaviour. *)
Definition loop (pub : addr) (m1 m2 : Z) (connected : bool) (g : Globals)
    : M Globals :=
  if due m1 (lastPublish g) then
    if connected then
      if counter g <? INT_MAX then
        let c := counter g + 1 in
        let buf := snprintf 64 ("counter=" +:+ format_d c) in
        log ("about to publish " +:+ buf) ;;;
        publish4 pub (Some "testEvent"%string) (Some buf)
                 (flags_or PRIVATE WITH_ACK) flags_default ;;;
        ret (mkGlobals m2 c)
      else undefined
    else ret (mkGlobals m2 (counter g))
  else ret g.

(** What happens to the driver once [setup] has run: Device OS calls
    [loop], or pays a callback it owes. *)
Inductive Tick : Type :=
| Loop (m1 m2 : Z) (connected : bool)
| Callback (k : nat) (error : Z) (data : addr).

Fixpoint drive (pub : addr) (ticks : list Tick) (g : Globals) : M Globals :=
  match ticks with
  | [] => ret g
  | Loop m1 m2 connected :: rest =>
      do g1 <- loop pub m1 m2 connected g;
      drive pub rest g1
  | Callback k error data :: rest =>
      deliver k error data ;;;
      drive pub rest g
  end.

End Driver.

(** Actions that neither create nor destroy an adapter nor assign its
    handler: the publishes, the query and the trampoline. *)
Definition keeps_objects `{os : DeviceOS} (a : Action) : bool :=
  match a with
  | New _ _ | NewWith _ _ _ | Delete _ | WithCallback _ _ => false
  | _ => true
  end.

(** The adapter of the example built and an accepted publish, its callback
    still owed. *)
Definition demo_published : list (@Action demoOS) :=
  [@NewWith demoOS 16 demo_raw demo_log;
   @Publish4 demoOS 16 (Some "testEvent"%string) (Some "counter=1"%string) 1 2].

(** A publish, a query and the callback, on an adapter that exists. *)
Definition demo_polled : list (@Action demoOS) :=
  [@Publish4 demoOS 16 (Some "testEvent"%string) (Some "counter=1"%string) 1 2;
   @IsComplete demoOS 16;
   @Deliver demoOS 0%nat 0 4096].

(** Every callback Device OS owes is to the trampoline. *)
Definition trampolines_only `{os : DeviceOS} (w : World) : Prop :=
  Forall (fun r => reg_callback r = staticCallback_ptr) (pending w).

(** A platform for running the driver: the application's state is the log,
    the flags are bits, and Device OS accepts a publish when fewer than two
    callbacks have been registered so far. *)
Definition driverOS : DeviceOS := {|
  App := list string;
  Error_UNKNOWN := -100;
  sizeof_spark_send_event_data := 12;
  PublishFlags := Z;
  flags_or := Z.lor;
  flags_value := fun f => f;
  flags_default := 0;
  accepts := fun tr _ _ _ _ _ _ => (length tr <? 2)%nat
|}.

Definition driver_log (line : string) (l : list string) : list string :=
  l ++ [line].

Definition driverFW : @Firmware driverOS :=
  @Build_Firmware driverOS driver_log 2 8.

(** The driver at boot: the global adapter built at address 32, [setup]
    run. *)
Definition driver_boot : @World driverOS :=
  match bind (PublishCallback_new (os := driverOS) 32 (EventData.mk 0 (foreign_callback 0) 0))
             (fun _ => setup (fw := driverFW) 32)
             (@boot driverOS ∅ []) with
  | Some (_, w) => w
  | None => @boot driverOS ∅ []
  end.

(** The global adapter of the driver once [setup] has run. *)
Definition driver_adapter : @PublishCallback driverOS :=
  mkPublishCallback (EventData.mk 12 staticCallback_ptr 32) false
                    (Some (setup_handler (fw := driverFW))).

(** A day in the life of the driver: a publish that is accepted, a call of
    [loop] inside the interval, the callback, an interval that ends
    offline just before the clock rolls over, a publish that is rejected,
    and a call of [loop] inside the next interval. *)
Definition driver_ticks : list Tick :=
  [Loop 60000 60003 true; Loop 60010 60011 true; Callback 0%nat 0 0;
   Loop 4294967295 0 false; Loop 60000 60001 true; Loop 120000 120001 true].

Definition driver_end : Globals * @World driverOS :=
  match drive (fw := driverFW) 32 driver_ticks initial_globals driver_boot with
  | Some r => r
  | None => (initial_globals, driver_boot)
  end.

(** * Facts *)

Section Facts.

Context `{os : DeviceOS}.

Implicit Types (w : World) (o : PublishCallback) (this : addr).

(** ** One member function at a time *)

Lemma load_live this w o :
  heap w !! this = Some o -> load this w = Some (o, w).
Proof. intros H. unfold load. by rewrite H. Qed.

Lemma load_inv this w o w' :
  load this w = Some (o, w') -> heap w !! this = Some o /\ w' = w.
Proof.
  unfold load. destruct (heap w !! this) as [o0|]; [|done].
  intros [= -> ->]. done.
Qed.

Lemma set_complete_live this b w o :
  heap w !! this = Some o ->
  set_complete this b w =
  Some (tt, mkWorld (<[this := mkPublishCallback (eventData o) b (completion o)]> (heap w))
                    (app w) (trace w) (pending w) (sends w) (serving w)).
Proof. intros H. unfold set_complete, bind. by rewrite (load_live _ _ _ H). Qed.

Lemma addr_of_eventData_this this : addr_of_eventData this = this.
Proof. unfold addr_of_eventData, offsetof_eventData. lia. Qed.

Lemma load_event_data_live this w o :
  heap w !! this = Some o ->
  load_event_data this w = Some (eventData o, w).
Proof.
  intros H. unfold load_event_data, offsetof_eventData, bind.
  rewrite Z.sub_0_r. by rewrite (load_live _ _ _ H).
Qed.

Lemma flag_view_insert this o (h : gmap Z PublishCallback) a tr ps n m :
  flag_view (mkWorld (<[this := o]> h) a tr ps n m) =
  <[this := complete o]> (complete <$> h).
Proof. unfold flag_view. cbn. apply fmap_insert. Qed.

(** What [publish_event] does to a live object, member by member of the
    world. *)
Lemma publish_event_spec this n d ttl f w o :
  heap w !! this = Some o ->
  let seen := <[this := false]> (flag_view w) in
  let ok := accepts (trace w) seen n d ttl (flags_value f) this in
  exists w',
    publish_event this n d ttl f w = Some (tt, w') /\
    heap w' = <[this := mkPublishCallback (eventData o) false (completion o)]> (heap w) /\
    trace w' =
      trace w ++ SendEvent (sends w) n d ttl (flags_value f) this ok ::
        (if ok then []
         else match completion o with
              | Some _ => [Completion (sends w) this Error_UNKNOWN NULL]
              | None => []
              end) /\
    pending w' =
      pending w ++
        (if ok
         then [mkRegistration (EventData.handler_callback (eventData o))
                              (EventData.handler_data (eventData o)) (sends w)]
         else []) /\
    app w' =
      (if ok then app w
       else match completion o with
            | Some g => g Error_UNKNOWN NULL seen (app w)
            | None => app w
            end) /\
    sends w' = S (sends w).
Proof.
  intros H seen ok. unfold publish_event, bind at 1.
  rewrite (set_complete_live _ _ _ _ H).
  set (w1 := mkWorld _ _ _ _ _ _).
  assert (H1 : heap w1 !! this =
               Some (mkPublishCallback (eventData o) false (completion o)))
    by apply lookup_insert_eq.
  assert (Hseen : flag_view w1 = seen) by apply flag_view_insert.
  unfold bind at 1, spark_send_event.
  rewrite (load_event_data_live _ _ _ H1), Hseen.
  change (trace w1) with (trace w). fold ok.
  destruct ok; cbn [negb].
  - eexists. split; [reflexivity|]. cbn. rewrite ?app_nil_r. done.
  - unfold bind. erewrite load_live by exact H1. cbn [completion].
    destruct (completion o) as [g|]; eexists; (split; [reflexivity|]);
      cbn; rewrite ?app_nil_r, <- ?app_assoc, ?fmap_insert; done.
Qed.

(** What the trampoline does to a live object. *)
Lemma staticCallback_spec error data this reserved w o :
  heap w !! this = Some o ->
  exists w',
    staticCallback error data this reserved w = Some (tt, w') /\
    heap w' = <[this := mkPublishCallback (eventData o) true (completion o)]> (heap w) /\
    trace w' =
      trace w ++
        match completion o with
        | Some _ => [Completion (serving w) this error data]
        | None => []
        end /\
    pending w' = pending w /\
    app w' =
      match completion o with
      | Some g => g error data (flag_view w) (app w)
      | None => app w
      end /\
    sends w' = sends w.
Proof.
  intros H. unfold staticCallback, bind at 1.
  rewrite (load_live _ _ _ H). unfold bind at 1.
  destruct (completion o) as [g|] eqn:Hc; cbn [call_completion ret].
  - erewrite set_complete_live by exact H. rewrite Hc.
    eexists. split; [reflexivity|]. done.
  - erewrite set_complete_live by exact H. rewrite Hc.
    eexists. split; [reflexivity|]. cbn. rewrite app_nil_r. done.
Qed.

(** Device OS pays a callback registered by an adapter. *)
Lemma deliver_spec k error data w r o :
  pending w !! k = Some r ->
  reg_callback r = staticCallback_ptr ->
  heap w !! reg_data r = Some o ->
  exists w',
    deliver k error data w = Some (tt, w') /\
    heap w' =
      <[reg_data r := mkPublishCallback (eventData o) true (completion o)]> (heap w) /\
    trace w' =
      trace w ++
        match completion o with
        | Some _ => [Completion (reg_inv r) (reg_data r) error data]
        | None => []
        end /\
    pending w' = delete k (pending w) /\
    app w' =
      match completion o with
      | Some g => g error data (flag_view w) (app w)
      | None => app w
      end /\
    sends w' = sends w.
Proof.
  intros Hk Hcb Ho. unfold deliver. rewrite Hk, Hcb. cbn [call_callback].
  set (w1 := mkWorld _ _ _ _ _ _).
  destruct (staticCallback_spec error data (reg_data r) NULL w1 o Ho)
    as (w' & -> & ? & ? & ? & ? & ?).
  by exists w'.
Qed.

Lemma initEventData_spec this w o :
  heap w !! this = Some o ->
  initEventData this w =
  Some (tt, mkWorld
    (<[this := mkPublishCallback
                 (EventData.mk sizeof_spark_send_event_data staticCallback_ptr this)
                 (complete o) (completion o)]> (heap w))
    (app w) (trace w) (pending w) (sends w) (serving w)).
Proof.
  intros H. unfold initEventData, set_eventData.
  unfold bind, load, store.
  repeat (first [rewrite H | rewrite lookup_insert_eq]; cbn).
  by rewrite !insert_insert_eq.
Qed.

Lemma PublishCallback_new_with_spec this raw f w :
  PublishCallback_new_with this raw f w =
  Some (tt, mkWorld
    (<[this := mkPublishCallback
                 (EventData.mk sizeof_spark_send_event_data staticCallback_ptr this)
                 false f]> (heap w))
    (app w) (trace w) (pending w) (sends w) (serving w)).
Proof.
  unfold PublishCallback_new_with, bind, store.
  erewrite initEventData_spec by (cbn; apply lookup_insert_eq).
  cbn. by rewrite insert_insert_eq.
Qed.

Lemma PublishCallback_new_spec this raw w :
  PublishCallback_new this raw w =
  Some (tt, mkWorld
    (<[this := mkPublishCallback
                 (EventData.mk sizeof_spark_send_event_data staticCallback_ptr this)
                 false None]> (heap w))
    (app w) (trace w) (pending w) (sends w) (serving w)).
Proof. exact (PublishCallback_new_with_spec this raw None w). Qed.

Lemma settled_insert this o (h : gmap Z PublishCallback) a tr ps n m :
  settled this (mkWorld (<[this := o]> h) a tr ps n m) = Some (complete o).
Proof. unfold settled. cbn. by rewrite lookup_insert_eq. Qed.

Lemma settled_heap this w o :
  heap w !! this = Some o -> settled this w = Some (complete o).
Proof. intros H. unfold settled. by rewrite H. Qed.

Lemma isComplete_live this w o :
  heap w !! this = Some o -> isComplete this w = Some (complete o, w).
Proof. intros H. unfold isComplete, bind. by rewrite (load_live _ _ _ H). Qed.

(** ** The claims about a single call *)

(** C2: when [spark_send_event] returns false and the completion slot of
    the adapter holds a handler, [publish_event] itself calls that handler
    with [Error::UNKNOWN] and a null payload: the world [publish_event]
    returns already carries the call, right after the call to the
    primitive and on its behalf, and the handler's effect on the
    application; Device OS owes nothing more.  (The primitive and the
    handler both find the [complete] member of the adapter already
    false.) *)
Theorem publish_event_rejected_calls_handler this n d ttl f w o g :
  heap w !! this = Some o ->
  completion o = Some g ->
  accepts (trace w) (<[this := false]> (flag_view w)) n d ttl (flags_value f) this
    = false ->
  exists w',
    publish_event this n d ttl f w = Some (tt, w') /\
    trace w' =
      trace w ++ [SendEvent (sends w) n d ttl (flags_value f) this false;
                  Completion (sends w) this Error_UNKNOWN NULL] /\
    app w' = g Error_UNKNOWN NULL (<[this := false]> (flag_view w)) (app w) /\
    pending w' = pending w.
Proof.
  intros H Hg Hrej.
  destruct (publish_event_spec this n d ttl f w o H)
    as (w' & Hrun & _ & Htr & Hp & Ha & _).
  cbv zeta in Htr, Hp, Ha. rewrite Hrej, Hg in *. exists w'.
  rewrite app_nil_r in Hp. done.
Qed.

(** C4: called with the address of a live adapter as its context, the
    trampoline first calls the handler, if the slot holds one, with exactly
    the error code and payload it was given, and only then sets [complete]
    to true.  The handler runs while the [complete] member of the adapter
    is still what it was when the trampoline was entered (false for an
    adapter whose publish is outstanding): that is what the handler is
    shown, and the heap is untouched when it has returned.  With an empty
    slot the trampoline calls nothing and sets [complete] to true at
    once. *)
Theorem staticCallback_forwards_then_settles error data this reserved w o :
  heap w !! this = Some o ->
  exists w1 w',
    match completion o with
    | Some g => call_completion this g error data
    | None => ret tt
    end w = Some (tt, w1) /\
    heap w1 = heap w /\
    flag_view w !! this = Some (complete o) /\
    app w1 = match completion o with
             | Some g => g error data (flag_view w) (app w)
             | None => app w
             end /\
    trace w1 = trace w ++ match completion o with
                          | Some _ => [Completion (serving w) this error data]
                          | None => []
                          end /\
    set_complete this true w1 = Some (tt, w') /\
    staticCallback error data this reserved w = Some (tt, w') /\
    heap w' = <[this := mkPublishCallback (eventData o) true (completion o)]> (heap w) /\
    flag_view w' = <[this := true]> (flag_view w) /\
    settled this w' = Some true /\
    app w' = app w1 /\ trace w' = trace w1.
Proof.
  intros H.
  destruct (staticCallback_spec error data this reserved w o H)
    as (w' & Hrun & Hh & Htr & _ & Ha & _).
  set (w1 := mkWorld (heap w)
               (match completion o with
                | Some g => g error data (flag_view w) (app w) | None => app w end)
               (trace w ++ match completion o with
                           | Some _ => [Completion (serving w) this error data]
                           | None => [] end)
               (pending w) (sends w) (serving w)).
  assert (Hstep : match completion o with
                  | Some g => call_completion this g error data
                  | None => ret tt
                  end w = Some (tt, w1)).
  { subst w1. destruct (completion o); cbn; [done|].
    rewrite app_nil_r. by destruct w. }
  assert (Hset : set_complete this true w1 = Some (tt, w')).
  { unfold staticCallback, bind at 1 in Hrun.
    rewrite (load_live _ _ _ H) in Hrun.
    unfold bind at 1 in Hrun. by rewrite Hstep in Hrun. }
  exists w1, w'. split_and!; try done.
  - unfold flag_view. by rewrite lookup_fmap, H.
  - unfold flag_view. rewrite Hh. apply fmap_insert.
  - unfold settled. rewrite Hh, lookup_insert_eq. done.
Qed.

(** C5: every call of [publish_event] on a live adapter first sets
    [complete] to false, whatever it was, and then, in the world so
    obtained, calls the primitive with the event name, the event data, the
    TTL, the raw value of the flags and [this]: the primitive is called in
    every case, finds the flag already false, and its call is in the trace
    of the world [publish_event] returns.  What [publish_event] does after
    the call is the rejection fallback when the primitive returned false
    and nothing when it returned true, so that [isComplete] then answers
    false right after [publish_event] has returned. *)
Theorem publish_event_rearms_then_submits this n d ttl f w o :
  heap w !! this = Some o ->
  exists w1 ok w2 w',
    set_complete this false w = Some (tt, w1) /\
    settled this w1 = Some false /\
    flag_view w1 = <[this := false]> (flag_view w) /\
    spark_send_event n d ttl (flags_value f) this w1 = Some (ok, w2) /\
    ok = accepts (trace w) (<[this := false]> (flag_view w)) n d ttl
                 (flags_value f) this /\
    trace w2 =
      trace w ++ [SendEvent (sends w) n d ttl (flags_value f) this ok] /\
    heap w2 = heap w1 /\
    (if negb ok
     then bind (load this)
            (fun o' => match completion o' with
                       | Some g => call_completion this g Error_UNKNOWN NULL
                       | None => ret tt
                       end)
     else ret tt) w2 = Some (tt, w') /\
    publish_event this n d ttl f w = Some (tt, w') /\
    (exists rest, trace w' = trace w2 ++ rest) /\
    settled this w' = Some false /\
    (ok = true -> w' = w2 /\ isComplete this w' = Some (false, w')).
Proof.
  intros H.
  pose proof (set_complete_live this false w o H) as Hset.
  set (w1 := mkWorld _ _ _ _ _ _) in Hset.
  assert (H1 : heap w1 !! this =
               Some (mkPublishCallback (eventData o) false (completion o)))
    by apply lookup_insert_eq.
  assert (Hseen : flag_view w1 = <[this := false]> (flag_view w))
    by apply flag_view_insert.
  destruct (publish_event_spec this n d ttl f w o H)
    as (w' & Hrun & Hh & Htr & _).
  cbv zeta in Htr.
  set (ok := accepts (trace w) (<[this := false]> (flag_view w)) n d ttl
                     (flags_value f) this) in *.
  assert (Hs' : settled this w' = Some false).
  { unfold settled. by rewrite Hh, lookup_insert_eq. }
  assert (Hsend : exists w2,
    spark_send_event n d ttl (flags_value f) this w1 = Some (ok, w2) /\
    trace w2 = trace w ++ [SendEvent (sends w) n d ttl (flags_value f) this ok] /\
    heap w2 = heap w1).
  { unfold spark_send_event. rewrite (load_event_data_live _ _ _ H1), Hseen.
    change (trace w1) with (trace w). fold ok.
    destruct ok; eexists; split_and!; reflexivity. }
  destruct Hsend as (w2 & Hsend & Htr2 & Hh2).
  assert (Hrest : (if negb ok
     then bind (load this)
            (fun o' => match completion o' with
                       | Some g => call_completion this g Error_UNKNOWN NULL
                       | None => ret tt
                       end)
     else ret tt) w2 = Some (tt, w')).
  { unfold publish_event, bind at 1 in Hrun. rewrite Hset in Hrun.
    unfold bind at 1 in Hrun. by rewrite Hsend in Hrun. }
  exists w1, ok, w2, w'.
  split_and!; try done.
  - by rewrite (settled_heap _ _ _ H1).
  - eexists. rewrite Htr, Htr2, <- app_assoc. reflexivity.
  - intros Hok. assert (Hw : w' = w2).
    { rewrite Hok in Hrest. cbn in Hrest. unfold ret in Hrest. congruence. }
    split; [exact Hw|].
    unfold settled in Hs'. destruct (heap w' !! this) as [o'|] eqn:Ho'; [|done].
    rewrite (isComplete_live _ _ _ Ho'). congruence.
Qed.

(** C9: on a live adapter [isComplete] returns the [complete] member, so
    its negation is the negation of that member, and the world it returns
    is the world it was called in: the flag, the handler slot, the
    descriptor and everything else are as before. *)
Theorem isComplete_is_a_pure_read this w o :
  heap w !! this = Some o ->
  isComplete this w = Some (complete o, w) /\
  bind (isComplete this) (fun b => ret (negb b)) w =
    Some (negb (complete o), w).
Proof.
  intros H. split; [exact (isComplete_live _ _ _ H)|].
  unfold bind. by rewrite (isComplete_live _ _ _ H).
Qed.

(** A member function that returned was called on a live object. *)
Lemma publish_event_returns_live this n d ttl f w r :
  publish_event this n d ttl f w = Some r -> exists o, heap w !! this = Some o.
Proof.
  unfold publish_event, set_complete, bind, load.
  destruct (heap w !! this) as [o|]; [eauto | done].
Qed.

Lemma staticCallback_returns_live error data this reserved w r :
  staticCallback error data this reserved w = Some r ->
  exists o, heap w !! this = Some o.
Proof.
  unfold staticCallback, bind, load.
  destruct (heap w !! this) as [o|]; [eauto | done].
Qed.

Lemma deliver_returns k error data w r :
  deliver k error data w = Some r ->
  exists reg o,
    pending w !! k = Some reg /\
    reg_callback reg = staticCallback_ptr /\
    heap w !! reg_data reg = Some o.
Proof.
  unfold deliver. destruct (pending w !! k) as [reg|]; [|done].
  destruct (reg_callback reg) eqn:Hcb; cbn [call_callback]; [|done].
  intros H. apply staticCallback_returns_live in H as [o Ho].
  by exists reg, o.
Qed.

Lemma publish_event_sends this n d ttl f w o :
  heap w !! this = Some o ->
  exists w',
    publish_event this n d ttl f w = Some (tt, w') /\
    trace w' !! length (trace w) =
      Some (SendEvent (sends w) n d ttl (flags_value f) this
              (accepts (trace w) (<[this := false]> (flag_view w)) n d ttl (flags_value f) this)).
Proof.
  intros H.
  destruct (publish_event_spec this n d ttl f w o H) as (w' & Hrun & _ & Htr & _).
  exists w'. split; [done|]. rewrite Htr.
  rewrite lookup_app_r by lia. by rewrite Nat.sub_diag.
Qed.

(** C10: the overload without data is the overload with data at a null
    data pointer; the overload with data is the full overload at a TTL of
    60; the full overload is [publish_event] at the union of the two
    flags.  The computations are equal, so they return the same world,
    trace included; on a live adapter the two short overloads therefore
    call the primitive with a TTL of 60 and the value of [flags1 | flags2]. *)
Theorem publish_overloads_reduce this n d ttl f1 f2 w o :
  heap w !! this = Some o ->
  publish3 this n f1 f2 w = publish4 this n None f1 f2 w /\
  publish4 this n d f1 f2 w = publish5 this n d 60 f1 f2 w /\
  publish5 this n d ttl f1 f2 w =
    publish_event this n d ttl (flags_or f1 f2) w /\
  (exists w3,
     publish3 this n f1 f2 w = Some (tt, w3) /\
     publish_event this n None 60 (flags_or f1 f2) w = Some (tt, w3) /\
     trace w3 !! length (trace w) =
       Some (SendEvent (sends w) n None 60 (flags_value (flags_or f1 f2)) this
               (accepts (trace w) (<[this := false]> (flag_view w)) n None 60
                 (flags_value (flags_or f1 f2)) this))) /\
  (exists w4,
     publish4 this n d f1 f2 w = Some (tt, w4) /\
     publish_event this n d 60 (flags_or f1 f2) w = Some (tt, w4) /\
     trace w4 !! length (trace w) =
       Some (SendEvent (sends w) n d 60 (flags_value (flags_or f1 f2)) this
               (accepts (trace w) (<[this := false]> (flag_view w)) n d 60
                 (flags_value (flags_or f1 f2)) this))).
Proof.
  intros H. split_and!; try reflexivity.
  - destruct (publish_event_sends this n None 60 (flags_or f1 f2) w o H)
      as (w3 & Hrun & Htr).
    by exists w3.
  - destruct (publish_event_sends this n d 60 (flags_or f1 f2) w o H)
      as (w4 & Hrun & Htr).
    by exists w4.
Qed.

(** C8: the context [publish_event] hands to the primitive is the address
    of the [eventData] member of the adapter.  When the primitive accepts,
    what it has registered from the descriptor found there is the
    trampoline with the adapter's own address; whenever Device OS pays that
    registration while the adapter is live, the trampoline writes the
    object at that very address and no other. *)
Theorem context_is_descriptor_and_resolves_back this n d ttl f w o :
  heap w !! this = Some o ->
  record_ok this o ->
  let ok := accepts (trace w) (<[this := false]> (flag_view w)) n d ttl (flags_value f) this in
  let reg := mkRegistration staticCallback_ptr this (sends w) in
  exists w',
    publish_event this n d ttl f w = Some (tt, w') /\
    trace w' !! length (trace w) =
      Some (SendEvent (sends w) n d ttl (flags_value f)
              (addr_of_eventData this) ok) /\
    (ok = true -> pending w' = pending w ++ [reg]) /\
    (forall e p r, call_callback (reg_callback reg) e p (reg_data reg) r =
                   staticCallback e p this r) /\
    (forall k error data w2 o2,
       pending w2 !! k = Some reg ->
       heap w2 !! this = Some o2 ->
       exists w3,
         deliver k error data w2 = Some (tt, w3) /\
         heap w3 =
           <[this := mkPublishCallback (eventData o2) true (completion o2)]> (heap w2) /\
         (forall q, q <> this -> heap w3 !! q = heap w2 !! q)).
Proof.
  intros H Hrec ok reg.
  destruct (publish_event_spec this n d ttl f w o H)
    as (w' & Hrun & _ & Htr & Hp & _).
  exists w'. split_and!; try done.
  - rewrite addr_of_eventData_this, Htr.
    rewrite lookup_app_r by lia. by rewrite Nat.sub_diag.
  - intros Hok. fold ok in Hp. rewrite Hok in Hp.
    unfold record_ok in Hrec. by rewrite Hrec in Hp.
  - intros k error data w2 o2 Hk Ho2.
    destruct (deliver_spec k error data w2 reg o2 Hk eq_refl Ho2)
      as (w3 & Hd & Hh & _).
    exists w3. split_and!; try done.
    intros q Hq. rewrite Hh. by apply lookup_insert_ne.
Qed.

(** ** The descriptor over whole programs *)

(** How one action changes the heap: not at all, by destroying an object,
    by constructing one with a fresh descriptor, or by writing members
    other than the descriptor. *)
Lemma step_heap a w w' :
  step a w = Some (tt, w') ->
  heap w' = heap w \/
  (exists p, heap w' = delete p (heap w)) \/
  (exists p o', heap w' = <[p := o']> (heap w) /\ record_ok p o') \/
  (exists p o o', heap w !! p = Some o /\ heap w' = <[p := o']> (heap w) /\
                  eventData o' = eventData o).
Proof.
  assert (Hpub : forall this n d ttl f,
    publish_event this n d ttl f w = Some (tt, w') ->
    exists p o o', heap w !! p = Some o /\ heap w' = <[p := o']> (heap w) /\
                   eventData o' = eventData o).
  { intros this n d ttl f Hrun.
    destruct (publish_event_returns_live _ _ _ _ _ _ _ Hrun) as [o Ho].
    destruct (publish_event_spec this n d ttl f w o Ho) as (w2 & Hrun2 & Hh & _).
    rewrite Hrun in Hrun2. injection Hrun2 as <-.
    by exists this, o, (mkPublishCallback (eventData o) false (completion o)). }
  assert (Hcb : forall e d cb r,
    staticCallback e d cb r w = Some (tt, w') ->
    exists p o o', heap w !! p = Some o /\ heap w' = <[p := o']> (heap w) /\
                   eventData o' = eventData o).
  { intros e d cb r Hrun.
    destruct (staticCallback_returns_live _ _ _ _ _ _ Hrun) as [o Ho].
    destruct (staticCallback_spec e d cb r w o Ho) as (w2 & Hrun2 & Hh & _).
    rewrite Hrun in Hrun2. injection Hrun2 as <-.
    by exists cb, o, (mkPublishCallback (eventData o) true (completion o)). }
  destruct a as [this raw|this raw g|this|this g|this n f1 f2|this n d f1 f2
                |this n d ttl f1 f2|this n d ttl f|this|k e d|e d cb r];
    cbn [step]; intros Hrun.
  - rewrite PublishCallback_new_spec in Hrun. injection Hrun as <-.
    right; right; left. eexists _, _. split; [reflexivity|]. reflexivity.
  - rewrite PublishCallback_new_with_spec in Hrun. injection Hrun as <-.
    right; right; left. eexists _, _. split; [reflexivity|]. reflexivity.
  - unfold PublishCallback_delete, bind, load in Hrun.
    destruct (heap w !! this); [|done]. injection Hrun as <-.
    right; left. by exists this.
  - unfold withCallback, set_completion, bind, load, store, ret in Hrun.
    destruct (heap w !! this) as [o|] eqn:Ho; [|done]. injection Hrun as <-.
    do 3 right. by exists this, o, (mkPublishCallback (eventData o) (complete o) g).
  - do 3 right. by eapply Hpub.
  - do 3 right. by eapply Hpub.
  - do 3 right. by eapply Hpub.
  - do 3 right. by eapply Hpub.
  - unfold isComplete, bind, load, ret in Hrun.
    destruct (heap w !! this); [|done]. injection Hrun as <-. by left.
  - destruct (deliver_returns _ _ _ _ _ Hrun) as (reg & o & Hk & Hptr & Ho).
    destruct (deliver_spec k e d w reg o Hk Hptr Ho) as (w2 & Hrun2 & Hh & _).
    rewrite Hrun in Hrun2. injection Hrun2 as <-.
    do 3 right.
    by exists (reg_data reg), o, (mkPublishCallback (eventData o) true (completion o)).
  - do 3 right. by eapply Hcb.
Qed.

Lemma step_records_ok a w w' :
  step a w = Some (tt, w') -> records_ok w -> records_ok w'.
Proof.
  intros Hrun Hok q oq Hq.
  destruct (step_heap a w w' Hrun)
    as [Hh|[(p & Hh)|[(p & o' & Hh & Hrec)|(p & o & o' & Hp & Hh & Hd)]]];
    rewrite Hh in Hq.
  - by apply Hok.
  - apply lookup_delete_Some in Hq as [_ Hq]. by apply Hok.
  - apply lookup_insert_Some in Hq as [[<- <-]|[_ Hq]]; [done | by apply Hok].
  - apply lookup_insert_Some in Hq as [[<- <-]|[_ Hq]]; [|by apply Hok].
    unfold record_ok. rewrite Hd. by apply Hok.
Qed.

Lemma run_records_ok acts w w' :
  run acts w = Some (tt, w') -> records_ok w -> records_ok w'.
Proof.
  revert w. induction acts as [|a rest IH]; intros w; cbn [run].
  - unfold ret. by intros [= <-].
  - unfold bind. destruct (step a w) as [[[] w1]|] eqn:Hstep; [|done].
    intros Hrun Hok. eapply IH; [exact Hrun|]. by eapply step_records_ok.
Qed.

(** C6: in every program over the class that starts with no adapter and
    runs to its end (constructors, [withCallback], the [publish]
    overloads, [publish_event], [isComplete], the trampoline called by
    Device OS or by anyone, destruction), each adapter that exists at the
    end holds a descriptor whose size is [sizeof(spark_send_event_data)],
    whose callback is the trampoline and whose context is the address of
    that adapter. *)
Theorem registration_record_invariant acts w w' this o :
  heap w = ∅ ->
  run acts w = Some (tt, w') ->
  heap w' !! this = Some o ->
  EventData.size (eventData o) = sizeof_spark_send_event_data /\
  EventData.handler_callback (eventData o) = staticCallback_ptr /\
  EventData.handler_data (eventData o) = this.
Proof.
  intros Hempty Hrun Ho.
  assert (Hok : records_ok w).
  { intros q oq Hq. rewrite Hempty in Hq. by rewrite lookup_empty in Hq. }
  pose proof (run_records_ok acts w w' Hrun Hok this o Ho) as Hrec.
  unfold record_ok in Hrec. by rewrite Hrec.
Qed.

(** ** Exactly one handler run for each call of the primitive *)

Lemma count_app {A} (p : A -> bool) (l1 l2 : list A) :
  count p (l1 ++ l2) = (count p l1 + count p l2)%nat.
Proof. unfold count. by rewrite List.filter_app, length_app. Qed.

Lemma count_delete {A} (p : A -> bool) (l : list A) (k : nat) (x : A) :
  l !! k = Some x ->
  count p l = (count p (delete k l) + (if p x then 1 else 0))%nat.
Proof.
  revert k. induction l as [|y l IH]; intros [|k] Hk; try done.
  - injection Hk as ->. unfold count. cbn. destruct (p x); cbn; lia.
  - cbn in Hk. specialize (IH k Hk). unfold count in *. cbn.
    destruct (p y); cbn; [f_equal|]; exact IH.
Qed.

Lemma has_handler_live this w :
  has_handler this w = true ->
  exists o g, heap w !! this = Some o /\ completion o = Some g.
Proof.
  unfold has_handler. destruct (heap w !! this) as [o|]; [|done].
  destruct (completion o) as [g|] eqn:Hg; [|done]. by exists o, g.
Qed.

Lemma exactly_once_quiet w w' :
  trace w' = trace w -> pending w' = pending w -> sends w' = sends w ->
  exactly_once w -> exactly_once w'.
Proof.
  unfold exactly_once, completions, owed. by intros -> -> ->.
Qed.

(** The counts after a publish that found a handler. *)
Lemma publish_event_counts this n d ttl f w w' :
  has_handler this w = true ->
  publish_event this n d ttl f w = Some (tt, w') ->
  let ok := accepts (trace w) (<[this := false]> (flag_view w)) n d ttl (flags_value f) this in
  sends w' = S (sends w) /\
  trace w' =
    trace w ++ SendEvent (sends w) n d ttl (flags_value f) this ok ::
      (if ok then [] else [Completion (sends w) this Error_UNKNOWN NULL]) /\
  (forall i, completions i w' =
     (completions i w +
      if ok then 0 else if bool_decide (sends w = i) then 1 else 0)%nat) /\
  (forall i, owed i w' =
     (owed i w +
      if ok then if bool_decide (sends w = i) then 1 else 0 else 0)%nat).
Proof.
  intros Hh Hrun ok.
  destruct (has_handler_live _ _ Hh) as (o & g & Ho & Hg).
  destruct (publish_event_spec this n d ttl f w o Ho)
    as (w2 & Hrun2 & _ & Htr & Hp & _ & Hs).
  rewrite Hrun in Hrun2. injection Hrun2 as <-.
  rewrite Hg in Htr. fold ok in Htr, Hp.
  split_and!; [done|done| |]; intros i.
  - unfold completions. rewrite Htr, count_app.
    destruct ok; unfold count; cbn; [done|].
    by destruct (bool_decide (sends w = i)).
  - unfold owed. rewrite Hp, count_app.
    destruct ok; unfold count, owes; cbn; [|done].
    by destruct (bool_decide (sends w = i)).
Qed.

Lemma publish_event_exactly_once this n d ttl f w w' :
  has_handler this w = true ->
  publish_event this n d ttl f w = Some (tt, w') ->
  exactly_once w -> exactly_once w'.
Proof.
  intros Hh Hrun (Hold & Hnew & Hrej).
  destruct (publish_event_counts this n d ttl f w w' Hh Hrun)
    as (Hs & Htr & Hc & Hw).
  set (ok := accepts (trace w) (<[this := false]> (flag_view w)) n d ttl (flags_value f) this) in *.
  split_and!.
  - intros i Hi. rewrite Hc, Hw. rewrite Hs in Hi.
    destruct (decide (sends w = i)) as [Heq|Hne].
    + rewrite (bool_decide_eq_true_2 _ Heq).
      destruct (Hnew i) as [-> ->]; [lia|]. destruct ok; lia.
    + rewrite (bool_decide_eq_false_2 _ Hne).
      specialize (Hold i). destruct ok; lia.
  - intros i Hi. rewrite Hc, Hw. rewrite Hs in Hi.
    rewrite bool_decide_eq_false_2 by lia.
    destruct (Hnew i) as [-> ->]; [lia|]. destruct ok; lia.
  - intros i n' d' ttl' fl ctx ok' Hin. rewrite Hs, Hw.
    rewrite Htr in Hin. apply elem_of_app in Hin as [Hin|Hin].
    + destruct (Hrej _ _ _ _ _ _ _ Hin) as [Hi Hzero].
      split; [lia|]. intros Hok'. rewrite (Hzero Hok').
      rewrite bool_decide_eq_false_2 by lia. by destruct ok.
    + apply elem_of_cons in Hin as [Heq|Hin].
      * injection Heq as -> _ _ _ _ _ ->. split; [lia|].
        intros ->. destruct (Hnew (sends w)) as [_ ->]; [lia|]. done.
      * destruct ok; [by apply elem_of_nil in Hin|].
        by apply list_elem_of_singleton in Hin.
Qed.

(** The counts after Device OS has paid a callback that found a handler. *)
Lemma deliver_counts k error data w w' :
  ready (Deliver k error data) w = true ->
  deliver k error data w = Some (tt, w') ->
  exists reg,
    pending w !! k = Some reg /\
    sends w' = sends w /\
    trace w' = trace w ++ [Completion (reg_inv reg) (reg_data reg) error data] /\
    (forall i, completions i w' =
       (completions i w + if bool_decide (reg_inv reg = i) then 1 else 0)%nat) /\
    (forall i, owed i w =
       (owed i w' + if bool_decide (reg_inv reg = i) then 1 else 0)%nat).
Proof.
  cbn [ready]. intros Hh Hrun.
  destruct (deliver_returns _ _ _ _ _ Hrun) as (reg & o & Hk & Hptr & Ho).
  rewrite Hk in Hh.
  destruct (has_handler_live _ _ Hh) as (o' & g & Ho' & Hg).
  rewrite Ho in Ho'. injection Ho' as <-.
  destruct (deliver_spec k error data w reg o Hk Hptr Ho)
    as (w2 & Hrun2 & _ & Htr & Hp & _ & Hs).
  rewrite Hrun in Hrun2. injection Hrun2 as <-.
  rewrite Hg in Htr.
  exists reg. split_and!; [done|done|done| |]; intros i.
  - unfold completions. rewrite Htr, count_app.
    unfold count; cbn. by destruct (bool_decide (reg_inv reg = i)).
  - unfold owed. rewrite Hp.
    exact (count_delete (owes i) (pending w) k reg Hk).
Qed.

Lemma deliver_exactly_once k error data w w' :
  ready (Deliver k error data) w = true ->
  deliver k error data w = Some (tt, w') ->
  exactly_once w -> exactly_once w'.
Proof.
  intros Hh Hrun (Hold & Hnew & Hrej).
  destruct (deliver_counts k error data w w' Hh Hrun)
    as (reg & Hk & Hs & Htr & Hc & Hw).
  split_and!.
  - intros i Hi. rewrite Hs in Hi.
    specialize (Hold i Hi). specialize (Hc i). specialize (Hw i).
    destruct (bool_decide (reg_inv reg = i)); lia.
  - intros i Hi. rewrite Hs in Hi.
    destruct (Hnew i Hi) as [H0 H1]. specialize (Hc i). specialize (Hw i).
    destruct (bool_decide (reg_inv reg = i)); lia.
  - intros i n d ttl fl ctx ok Hin. rewrite Hs.
    rewrite Htr in Hin. apply elem_of_app in Hin as [Hin|Hin].
    + destruct (Hrej _ _ _ _ _ _ _ Hin) as [Hi Hzero].
      split; [done|]. intros Hok. specialize (Hzero Hok). specialize (Hw i).
      destruct (bool_decide (reg_inv reg = i)); lia.
    + by apply list_elem_of_singleton in Hin.
Qed.

Lemma step_exactly_once a w w' :
  ready a w = true ->
  step a w = Some (tt, w') ->
  exactly_once w -> exactly_once w'.
Proof.
  destruct a as [this raw|this raw g|this|this g|this n f1 f2|this n d f1 f2
                |this n d ttl f1 f2|this n d ttl f|this|k e d|e d cb r];
    cbn [step]; intros Hready Hrun.
  - rewrite PublishCallback_new_spec in Hrun. injection Hrun as <-.
    by apply exactly_once_quiet.
  - rewrite PublishCallback_new_with_spec in Hrun. injection Hrun as <-.
    by apply exactly_once_quiet.
  - unfold PublishCallback_delete, bind, load in Hrun.
    destruct (heap w !! this); [|done]. injection Hrun as <-.
    by apply exactly_once_quiet.
  - unfold withCallback, set_completion, bind, load, store, ret in Hrun.
    destruct (heap w !! this); [|done]. injection Hrun as <-.
    by apply exactly_once_quiet.
  - by eapply publish_event_exactly_once.
  - by eapply publish_event_exactly_once.
  - by eapply publish_event_exactly_once.
  - by eapply publish_event_exactly_once.
  - unfold isComplete, bind, load, ret in Hrun.
    destruct (heap w !! this); [|done]. by injection Hrun as <-.
  - by eapply deliver_exactly_once.
  - done.
Qed.

Lemma run_exactly_once acts w w' :
  armed acts w = true ->
  run acts w = Some (tt, w') ->
  exactly_once w -> exactly_once w'.
Proof.
  revert w. induction acts as [|a rest IH]; intros w; cbn [run armed].
  - unfold ret. by intros _ [= <-].
  - unfold bind. intros [Hready Harmed]%andb_true_iff.
    destruct (step a w) as [[[] w1]|] eqn:Hstep; [|done].
    intros Hrun Hinv. eapply IH; [exact Harmed|exact Hrun|].
    by eapply step_exactly_once.
Qed.

(** C1: take any program over the class, started at boot, in which the
    trampoline is called by Device OS alone, once for a registration it
    holds, and in which every [publish] and every delivery finds a handler
    in the slot.  When it has run, each call [i] of the primitive made so
    far has had its handler run exactly once, or not yet and Device OS
    still owes it exactly one callback: the two counts add up to one.  If
    the primitive rejected call [i], nothing is owed to it, so its handler
    has run, once; if nothing is owed any longer to a call, whatever the
    primitive answered, its handler has run, once. *)
Theorem handler_runs_exactly_once acts h a w i :
  armed acts (boot h a) = true ->
  run acts (boot h a) = Some (tt, w) ->
  (i < sends w)%nat ->
  (completions i w + owed i w = 1)%nat /\
  (forall n d ttl fl ctx,
     SendEvent i n d ttl fl ctx false ∈ trace w ->
     completions i w = 1%nat /\ owed i w = 0%nat) /\
  (owed i w = 0%nat -> completions i w = 1%nat).
Proof.
  intros Harmed Hrun Hi.
  assert (Hboot : exactly_once (boot h a)).
  { split_and!.
    - intros j Hj. cbn in Hj. lia.
    - done.
    - intros j n d ttl fl ctx ok Hin. cbn in Hin. by apply elem_of_nil in Hin. }
  destruct (run_exactly_once acts _ _ Harmed Hrun Hboot) as (Hold & _ & Hrej).
  specialize (Hold i Hi). split_and!; [done| |lia].
  intros n d ttl fl ctx Hin.
  destruct (Hrej _ _ _ _ _ _ _ Hin) as [_ Hzero].
  specialize (Hzero eq_refl). lia.
Qed.

End Facts.

(** * The definitions at work on the concrete platform *)

Example demo_accept_then_deliver :
  demo_view (run demo_accepted demo_boot)
  = Some ([(0, 4096)],
          [SendEvent 0 (Some "testEvent"%string) (Some "counter=1"%string) 60 3 16 true;
           Completion 0 16 0 4096],
          [], Some true).
Proof. vm_compute. reflexivity. Qed.

Example demo_reject :
  demo_view (run demo_rejected demo_boot)
  = Some ([(-100, 0)],
          [SendEvent 0 (Some "testEvent"%string) None 0 3 16 false;
           Completion 0 16 (-100) 0],
          [], Some false).
Proof. vm_compute. reflexivity. Qed.

Example demo_constructed :
  run [@NewWith demoOS 16 demo_raw demo_log] demo_boot = Some (tt, demo_live).
Proof. vm_compute. reflexivity. Qed.

(** C3: an adapter whose earlier publish settled ([complete] is true)
    publishes again and Device OS rejects.  The handler runs inside
    [publish_event] with [Error::UNKNOWN] and a null payload, yet when
    [publish_event] has returned [isComplete] still answers false: the
    rejection branch never writes [complete], and the adapter stays
    outstanding although nothing is owed to it. *)
Theorem rejected_publish_stays_outstanding :
  settled 16 (final demo_accepted demo_boot) = Some true /\
  exists w,
    run demo_reused demo_boot = Some (tt, w) /\
    trace w =
      [SendEvent 0 (Some "testEvent"%string) (Some "counter=1"%string) 60 3 16 true;
       Completion 0 16 0 4096;
       SendEvent 1 (Some "testEvent"%string) (Some "counter=2"%string) 0 3 16 false;
       Completion 1 16 (-100) 0] /\
    pending w = [] /\
    isComplete 16 w = Some (false, w).
Proof.
  split; [vm_compute; reflexivity|].
  exists (final demo_reused demo_boot).
  split_and!; vm_compute; reflexivity.
Qed.

(** C7: an adapter without a handler publishes and Device OS rejects.  No
    handler is called, and when [publish_event] has returned [isComplete]
    answers false: on this path the adapter is not settled.  On the other
    path, the trampoline, the same adapter is settled: after an accepted
    publish and its callback [isComplete] answers true, again with no
    handler called. *)
Theorem bare_rejected_publish_stays_outstanding :
  (exists w,
     run demo_bare_rejected demo_boot = Some (tt, w) /\
     trace w = [SendEvent 0 (Some "testEvent"%string) None 0 3 16 false] /\
     pending w = [] /\
     isComplete 16 w = Some (false, w)) /\
  (exists w,
     run demo_bare_accepted demo_boot = Some (tt, w) /\
     trace w = [SendEvent 0 (Some "testEvent"%string) None 60 3 16 true] /\
     pending w = [] /\
     isComplete 16 w = Some (true, w)).
Proof.
  split.
  - exists (final demo_bare_rejected demo_boot).
    split_and!; vm_compute; reflexivity.
  - exists (final demo_bare_accepted demo_boot).
    split_and!; vm_compute; reflexivity.
Qed.

(** ** The general theorems applied *)

Section Applied.

#[local] Existing Instance demoOS.

Lemma handler_runs_exactly_once_witness :
  (completions 1 (final demo_reused demo_boot) +
   owed 1 (final demo_reused demo_boot) = 1)%nat /\
  (forall n d ttl fl ctx,
     SendEvent 1 n d ttl fl ctx false ∈ trace (final demo_reused demo_boot) ->
     completions 1 (final demo_reused demo_boot) = 1%nat /\
     owed 1 (final demo_reused demo_boot) = 0%nat) /\
  (owed 1 (final demo_reused demo_boot) = 0%nat ->
   completions 1 (final demo_reused demo_boot) = 1%nat).
Proof.
  apply (handler_runs_exactly_once (os := demoOS) demo_reused ∅ []
           (final demo_reused demo_boot) 1%nat).
  - vm_compute. reflexivity.
  - vm_compute. reflexivity.
  - vm_compute. lia.
Defined.

Lemma publish_event_rejected_calls_handler_witness :
  exists w',
    publish_event (os := demoOS) 16 (Some "testEvent"%string) None 0 3 demo_live =
      Some (tt, w') /\
    trace w' = [SendEvent 0 (Some "testEvent"%string) None 0 3 16 false;
                Completion 0 16 (-100) 0] /\
    app w' = [(-100, 0)] /\
    pending w' = [].
Proof.
  apply (publish_event_rejected_calls_handler (os := demoOS)
           16 (Some "testEvent"%string) None 0 3 demo_live demo_adapter
           (fun error data _ l => l ++ [(error, data)])).
  - vm_compute. reflexivity.
  - reflexivity.
  - reflexivity.
Defined.

Lemma staticCallback_forwards_then_settles_witness :
  exists w1 w',
    call_completion (os := demoOS) 16
      (fun error data seen l =>
         l ++ [(error, match seen !! 16 with Some true => 1 | _ => 0 end)])
      (-160) 4096 demo_spied = Some (tt, w1) /\
    heap w1 = heap demo_spied /\
    flag_view demo_spied !! 16 = Some false /\
    app w1 = [(-160, 0)] /\
    trace w1 = [Completion 0 16 (-160) 4096] /\
    set_complete 16 true w1 = Some (tt, w') /\
    staticCallback (-160) 4096 16 0 demo_spied = Some (tt, w') /\
    heap w' =
      <[16 := mkPublishCallback (EventData.mk 12 staticCallback_ptr 16) true demo_spy]>
        (heap demo_spied) /\
    flag_view w' = <[16 := true]> (flag_view demo_spied) /\
    settled 16 w' = Some true /\
    app w' = app w1 /\ trace w' = trace w1.
Proof.
  apply (staticCallback_forwards_then_settles (os := demoOS)
           (-160) 4096 16 0 demo_spied demo_spy_adapter).
  vm_compute. reflexivity.
Defined.

Lemma registration_record_invariant_witness :
  EventData.size (eventData demo_adapter) = 12 /\
  EventData.handler_callback (eventData demo_adapter) = staticCallback_ptr /\
  EventData.handler_data (eventData demo_adapter) = 16.
Proof.
  apply (registration_record_invariant (os := demoOS) demo_reused demo_boot
           (final demo_reused demo_boot) 16 demo_adapter).
  - reflexivity.
  - vm_compute. reflexivity.
  - vm_compute. reflexivity.
Defined.

Lemma context_is_descriptor_and_resolves_back_witness :
  exists w',
    publish_event (os := demoOS) 16 (Some "testEvent"%string) None 60 3 demo_live =
      Some (tt, w') /\
    trace w' !! 0%nat =
      Some (SendEvent 0 (Some "testEvent"%string) None 60 3
              (addr_of_eventData 16) true) /\
    (true = true -> pending w' = [mkRegistration staticCallback_ptr 16 0]) /\
    (forall e p r,
       call_callback staticCallback_ptr e p 16 r = staticCallback e p 16 r) /\
    (forall k error data w2 o2,
       pending w2 !! k = Some (mkRegistration staticCallback_ptr 16 0) ->
       heap w2 !! 16 = Some o2 ->
       exists w3,
         deliver k error data w2 = Some (tt, w3) /\
         heap w3 =
           <[16 := mkPublishCallback (eventData o2) true (completion o2)]> (heap w2) /\
         (forall q, q <> 16 -> heap w3 !! q = heap w2 !! q)).
Proof.
  apply (context_is_descriptor_and_resolves_back (os := demoOS)
           16 (Some "testEvent"%string) None 60 3 demo_live demo_adapter).
  - vm_compute. reflexivity.
  - reflexivity.
Defined.

Lemma isComplete_is_a_pure_read_witness :
  isComplete (os := demoOS) 16 demo_live = Some (false, demo_live) /\
  bind (isComplete 16) (fun b => ret (negb b)) demo_live = Some (true, demo_live).
Proof.
  apply (isComplete_is_a_pure_read (os := demoOS) 16 demo_live demo_adapter).
  vm_compute. reflexivity.
Defined.

Lemma publish_overloads_reduce_witness :
  publish3 (os := demoOS) 16 (Some "testEvent"%string) 1 2 demo_live =
    publish4 (os := demoOS) 16 (Some "testEvent"%string) None 1 2 demo_live /\
  publish4 (os := demoOS) 16 (Some "testEvent"%string) (Some "counter=1"%string) 1 2
      demo_live =
    publish5 (os := demoOS) 16 (Some "testEvent"%string) (Some "counter=1"%string) 60
      1 2 demo_live /\
  publish5 (os := demoOS) 16 (Some "testEvent"%string) (Some "counter=1"%string) 30
      1 2 demo_live =
    publish_event (os := demoOS) 16 (Some "testEvent"%string)
      (Some "counter=1"%string) 30 3 demo_live /\
  (exists w3,
     publish3 (os := demoOS) 16 (Some "testEvent"%string) 1 2 demo_live =
       Some (tt, w3) /\
     publish_event (os := demoOS) 16 (Some "testEvent"%string) None 60 3 demo_live =
       Some (tt, w3) /\
     trace w3 !! 0%nat =
       Some (SendEvent 0 (Some "testEvent"%string) None 60 3 16 true)) /\
  (exists w4,
     publish4 (os := demoOS) 16 (Some "testEvent"%string) (Some "counter=1"%string)
       1 2 demo_live = Some (tt, w4) /\
     publish_event (os := demoOS) 16 (Some "testEvent"%string)
       (Some "counter=1"%string) 60 3 demo_live = Some (tt, w4) /\
     trace w4 !! 0%nat =
       Some (SendEvent 0 (Some "testEvent"%string) (Some "counter=1"%string) 60 3 16
               true)).
Proof.
  apply (publish_overloads_reduce (os := demoOS) 16 (Some "testEvent"%string)
           (Some "counter=1"%string) 30 1 2 demo_live demo_adapter).
  vm_compute. reflexivity.
Defined.

End Applied.

Section AppliedWatch.

#[local] Existing Instance watchOS.

Lemma publish_event_rearms_then_submits_witness :
  exists w1 ok w2 w',
    set_complete 16 false watch_settled = Some (tt, w1) /\
    settled 16 w1 = Some false /\
    flag_view w1 = <[16 := false]> (flag_view watch_settled) /\
    spark_send_event (Some "testEvent"%string) None 60 3 16 w1 = Some (ok, w2) /\
    ok = true /\
    trace w2 = [SendEvent 0 (Some "testEvent"%string) None 60 3 16 ok] /\
    heap w2 = heap w1 /\
    (if negb ok
     then bind (load 16)
            (fun o' => match completion o' with
                       | Some g => call_completion 16 g (-100) 0
                       | None => ret tt
                       end)
     else ret tt) w2 = Some (tt, w') /\
    publish_event 16 (Some "testEvent"%string) None 60 (3 : @PublishFlags watchOS)
      watch_settled = Some (tt, w') /\
    (exists rest, trace w' = trace w2 ++ rest) /\
    settled 16 w' = Some false /\
    (ok = true -> w' = w2 /\ isComplete 16 w' = Some (false, w')).
Proof.
  apply (publish_event_rearms_then_submits (os := watchOS)
           16 (Some "testEvent"%string) None 60 3 watch_settled watch_adapter).
  vm_compute. reflexivity.
Defined.

End AppliedWatch.

(** * More about the class *)

Section MoreFacts.

Context `{os : DeviceOS}.

Implicit Types (w : World) (o : PublishCallback) (this : addr).

Lemma withCallback_live this f w o :
  heap w !! this = Some o ->
  withCallback this f w =
  Some (this, mkWorld (<[this := mkPublishCallback (eventData o) (complete o) f]> (heap w))
                      (app w) (trace w) (pending w) (sends w) (serving w)).
Proof.
  intros H. unfold withCallback, set_completion, bind, load, store, ret.
  by rewrite H.
Qed.

Lemma flag_view_heap w w1 this o b :
  heap w1 = <[this := mkPublishCallback (eventData o) b (completion o)]> (heap w) ->
  flag_view w1 = <[this := b]> (flag_view w).
Proof. intros Hh. unfold flag_view. rewrite Hh. apply fmap_insert. Qed.

(** An accepted publish from an adapter whose descriptor is in order. *)
Lemma publish_event_accepted this n d ttl f w o :
  heap w !! this = Some o ->
  record_ok this o ->
  accepts (trace w) (<[this := false]> (flag_view w)) n d ttl (flags_value f) this = true ->
  exists w1,
    publish_event this n d ttl f w = Some (tt, w1) /\
    heap w1 = <[this := mkPublishCallback (eventData o) false (completion o)]> (heap w) /\
    trace w1 = trace w ++ [SendEvent (sends w) n d ttl (flags_value f) this true] /\
    pending w1 = pending w ++ [mkRegistration staticCallback_ptr this (sends w)] /\
    app w1 = app w /\
    sends w1 = S (sends w).
Proof.
  intros H Hrec Hok.
  destruct (publish_event_spec this n d ttl f w o H)
    as (w1 & Hrun & Hh & Htr & Hp & Ha & Hs).
  rewrite Hok in Htr, Hp, Ha. unfold record_ok in Hrec. rewrite Hrec in Hp.
  by exists w1.
Qed.

(** X1: an accepted publish followed by its callback.  [publish_event]
    itself calls no handler and leaves the application as it was; when
    Device OS then pays the callback, the handler of the adapter, if it has
    one, runs once with exactly the outcome Device OS reports (and finds
    the adapter not yet complete), the adapter is complete, and Device OS
    owes what it owed before the publish. *)
Theorem accepted_publish_then_callback this n d ttl f error data w o :
  heap w !! this = Some o ->
  record_ok this o ->
  accepts (trace w) (<[this := false]> (flag_view w)) n d ttl (flags_value f) this = true ->
  exists w1 w2,
    publish_event this n d ttl f w = Some (tt, w1) /\
    app w1 = app w /\
    trace w1 = trace w ++ [SendEvent (sends w) n d ttl (flags_value f) this true] /\
    isComplete this w1 = Some (false, w1) /\
    deliver (length (pending w)) error data w1 = Some (tt, w2) /\
    trace w2 =
      trace w1 ++ match completion o with
                  | Some _ => [Completion (sends w) this error data]
                  | None => []
                  end /\
    app w2 = match completion o with
             | Some g => g error data (<[this := false]> (flag_view w)) (app w)
             | None => app w
             end /\
    pending w2 = pending w /\
    isComplete this w2 = Some (true, w2).
Proof.
  intros H Hrec Hok.
  destruct (publish_event_accepted this n d ttl f w o H Hrec Hok)
    as (w1 & Hrun & Hh & Htr & Hp & Ha & Hs).
  assert (H1 : heap w1 !! this =
               Some (mkPublishCallback (eventData o) false (completion o))).
  { rewrite Hh. apply lookup_insert_eq. }
  assert (Hk : pending w1 !! length (pending w) =
               Some (mkRegistration staticCallback_ptr this (sends w))).
  { rewrite Hp. by apply list_lookup_middle. }
  destruct (deliver_spec (length (pending w)) error data w1 _ _ Hk eq_refl H1)
    as (w2 & Hd & Hh2 & Htr2 & Hp2 & Ha2 & _).
  cbn [reg_data reg_inv completion eventData] in *.
  exists w1, w2. split_and!; try done.
  - by rewrite (isComplete_live _ _ _ H1).
  - by rewrite Ha2, Ha, (flag_view_heap _ _ _ _ _ Hh).
  - rewrite Hp2, Hp, delete_middle. apply app_nil_r.
  - erewrite isComplete_live by (rewrite Hh2; apply lookup_insert_eq). done.
Qed.

(** X2: the handler that runs is the one in the slot when the callback
    arrives, not the one that was there at the publish: after an accepted
    publish, [withCallback] replaces the handler, and the callback then
    runs the new handler only (which finds the adapter not yet
    complete). *)
Theorem handler_is_read_at_callback_time this n d ttl f g error data w o :
  heap w !! this = Some o ->
  record_ok this o ->
  accepts (trace w) (<[this := false]> (flag_view w)) n d ttl (flags_value f) this = true ->
  exists w1 w2 w3,
    publish_event this n d ttl f w = Some (tt, w1) /\
    withCallback this (Some g) w1 = Some (this, w2) /\
    deliver (length (pending w)) error data w2 = Some (tt, w3) /\
    app w3 = g error data (<[this := false]> (flag_view w)) (app w) /\
    trace w3 =
      trace w ++ [SendEvent (sends w) n d ttl (flags_value f) this true;
                  Completion (sends w) this error data] /\
    isComplete this w3 = Some (true, w3).
Proof.
  intros H Hrec Hok.
  destruct (publish_event_accepted this n d ttl f w o H Hrec Hok)
    as (w1 & Hrun & Hh & Htr & Hp & Ha & Hs).
  assert (H1 : heap w1 !! this =
               Some (mkPublishCallback (eventData o) false (completion o))).
  { rewrite Hh. apply lookup_insert_eq. }
  pose proof (withCallback_live this (Some g) w1 _ H1) as Hwc.
  set (w2 := mkWorld _ _ _ _ _ _) in Hwc.
  assert (H2 : heap w2 !! this =
               Some (mkPublishCallback (eventData o) false (Some g)))
    by apply lookup_insert_eq.
  assert (Hk : pending w2 !! length (pending w) =
               Some (mkRegistration staticCallback_ptr this (sends w))).
  { change (pending w2) with (pending w1). rewrite Hp.
    by apply list_lookup_middle. }
  destruct (deliver_spec (length (pending w)) error data w2 _ _ Hk eq_refl H2)
    as (w3 & Hd & Hh3 & Htr3 & _ & Ha3 & _).
  cbn [reg_data reg_inv completion eventData] in *.
  exists w1, w2, w3. split_and!; try done.
  - rewrite Ha3. change (app w2) with (app w1). rewrite Ha.
    assert (Hv : flag_view w2 = <[this := false]> (flag_view w)).
    { unfold flag_view. subst w2. cbn [heap complete].
      by rewrite fmap_insert, Hh, fmap_insert, insert_insert_eq. }
    by rewrite Hv.
  - rewrite Htr3. change (trace w2) with (trace w1).
    by rewrite Htr, <- app_assoc.
  - erewrite isComplete_live by (rewrite Hh3; apply lookup_insert_eq). done.
Qed.

(** X3: nothing keeps publishes from overlapping, and the flag does not
    count them.  After two accepted publishes from one adapter, the first
    callback makes [isComplete] answer true although Device OS still owes
    the callback of the second publish. *)
Theorem overlapping_publishes_settle_early
    this n1 d1 ttl1 f1 n2 d2 ttl2 f2 error data w o :
  heap w !! this = Some o ->
  record_ok this o ->
  accepts (trace w) (<[this := false]> (flag_view w)) n1 d1 ttl1 (flags_value f1) this = true ->
  accepts (trace w ++ [SendEvent (sends w) n1 d1 ttl1 (flags_value f1) this true])
          (<[this := false]> (flag_view w)) n2 d2 ttl2 (flags_value f2) this = true ->
  exists w1 w2 w3,
    publish_event this n1 d1 ttl1 f1 w = Some (tt, w1) /\
    publish_event this n2 d2 ttl2 f2 w1 = Some (tt, w2) /\
    deliver (length (pending w)) error data w2 = Some (tt, w3) /\
    isComplete this w3 = Some (true, w3) /\
    pending w3 =
      pending w ++ [mkRegistration staticCallback_ptr this (S (sends w))].
Proof.
  intros H Hrec Hok1 Hok2.
  destruct (publish_event_accepted this n1 d1 ttl1 f1 w o H Hrec Hok1)
    as (w1 & Hrun1 & Hh1 & Htr1 & Hp1 & Ha1 & Hs1).
  assert (H1 : heap w1 !! this =
               Some (mkPublishCallback (eventData o) false (completion o))).
  { rewrite Hh1. apply lookup_insert_eq. }
  rewrite <- Htr1 in Hok2.
  assert (Hv : <[this := false]> (flag_view w1) = <[this := false]> (flag_view w)).
  { by rewrite (flag_view_heap _ _ _ _ _ Hh1), insert_insert_eq. }
  rewrite <- Hv in Hok2.
  destruct (publish_event_accepted this n2 d2 ttl2 f2 w1 _ H1 Hrec Hok2)
    as (w2 & Hrun2 & Hh2 & Htr2 & Hp2 & Ha2 & Hs2).
  cbn [completion eventData] in Hh2.
  assert (H2 : heap w2 !! this =
               Some (mkPublishCallback (eventData o) false (completion o))).
  { rewrite Hh2. apply lookup_insert_eq. }
  assert (Hp : pending w2 =
    pending w ++ [mkRegistration staticCallback_ptr this (sends w);
                  mkRegistration staticCallback_ptr this (S (sends w))]).
  { by rewrite Hp2, Hp1, Hs1, <- app_assoc. }
  assert (Hk : pending w2 !! length (pending w) =
               Some (mkRegistration staticCallback_ptr this (sends w))).
  { rewrite Hp. by apply list_lookup_middle. }
  destruct (deliver_spec (length (pending w)) error data w2 _ _ Hk eq_refl H2)
    as (w3 & Hd & Hh3 & _ & Hp3 & _).
  cbn [reg_data] in *.
  exists w1, w2, w3. split_and!; try done.
  - erewrite isComplete_live by (rewrite Hh3; apply lookup_insert_eq). done.
  - rewrite Hp3, Hp. apply delete_middle.
Qed.

(** The publishes, the query and the trampoline write at most the
    [complete] member of one object. *)
Lemma step_flag_only a w w' :
  keeps_objects a = true ->
  step a w = Some (tt, w') ->
  heap w' = heap w \/
  exists p o b,
    heap w !! p = Some o /\
    heap w' = <[p := mkPublishCallback (eventData o) b (completion o)]> (heap w).
Proof.
  assert (Hpub : forall this n d ttl f,
    publish_event this n d ttl f w = Some (tt, w') ->
    exists p o b, heap w !! p = Some o /\
      heap w' = <[p := mkPublishCallback (eventData o) b (completion o)]> (heap w)).
  { intros this n d ttl f Hrun.
    destruct (publish_event_returns_live _ _ _ _ _ _ _ Hrun) as [o Ho].
    destruct (publish_event_spec this n d ttl f w o Ho) as (w2 & Hrun2 & Hh & _).
    rewrite Hrun in Hrun2. injection Hrun2 as <-. by exists this, o, false. }
  destruct a as [this raw|this raw g|this|this g|this n f1 f2|this n d f1 f2
                |this n d ttl f1 f2|this n d ttl f|this|k e d|e d cb r];
    cbn [keeps_objects step]; intros Hkeep Hrun; try done.
  - right. by eapply Hpub.
  - right. by eapply Hpub.
  - right. by eapply Hpub.
  - right. by eapply Hpub.
  - unfold isComplete, bind, load, ret in Hrun.
    destruct (heap w !! this); [|done]. injection Hrun as <-. by left.
  - destruct (deliver_returns _ _ _ _ _ Hrun) as (reg & o & Hk & Hptr & Ho).
    destruct (deliver_spec k e d w reg o Hk Hptr Ho) as (w2 & Hrun2 & Hh & _).
    rewrite Hrun in Hrun2. injection Hrun2 as <-.
    right. by exists (reg_data reg), o, true.
  - destruct (staticCallback_returns_live _ _ _ _ _ _ Hrun) as [o Ho].
    destruct (staticCallback_spec e d cb r w o Ho) as (w2 & Hrun2 & Hh & _).
    rewrite Hrun in Hrun2. injection Hrun2 as <-.
    right. by exists cb, o, true.
Qed.

(** X4: no sequence of publishes (any overload), [isComplete] queries and
    trampoline calls, whether made by Device OS for a registration or
    directly, creates or destroys an adapter or changes the handler or the
    descriptor of one: every adapter there was is still there with the same
    handler and descriptor, and no address has gained one. *)
Theorem publishes_and_callbacks_keep_handlers acts w w' :
  forallb keeps_objects acts = true ->
  run acts w = Some (tt, w') ->
  (forall q o, heap w !! q = Some o ->
     exists o', heap w' !! q = Some o' /\
                eventData o' = eventData o /\ completion o' = completion o) /\
  (forall q, heap w !! q = None -> heap w' !! q = None).
Proof.
  revert w. induction acts as [|a rest IH]; intros w; cbn [forallb run].
  - unfold ret. intros _ [= <-]. split; [|done]. intros q o Hq. by exists o.
  - intros [Hkeep Hrest]%andb_true_iff. unfold bind.
    destruct (step a w) as [[[] w1]|] eqn:Hstep; [|done].
    intros Hrun. destruct (IH w1 Hrest Hrun) as [IHsome IHnone].
    destruct (step_flag_only a w w1 Hkeep Hstep) as [Hh|(p & o & b & Hp & Hh)].
    + rewrite Hh in *. by split.
    + split.
      * intros q oq Hq. destruct (decide (q = p)) as [->|Hne].
        -- rewrite Hp in Hq. injection Hq as <-.
           destruct (IHsome p (mkPublishCallback (eventData o) b (completion o)))
             as (o' & Ho' & Hd & Hc).
           { rewrite Hh. apply lookup_insert_eq. }
           by exists o'.
        -- apply IHsome. rewrite Hh. by rewrite lookup_insert_ne.
      * intros q Hq. apply IHnone. rewrite Hh.
        rewrite lookup_insert_ne; [done|]. intros ->. congruence.
Qed.

(** X5: a constructor cannot fail and does not depend on what the storage
    held.  The adapter it builds answers false to [isComplete] although
    nothing has been published, holds the handler given (none for the
    default constructor) and a descriptor in order; other adapters and
    everything outside the heap are as before. *)
Theorem new_adapter_is_not_complete this raw f w :
  exists w',
    PublishCallback_new_with this raw f w = Some (tt, w') /\
    PublishCallback_new this raw w = PublishCallback_new_with this raw None w /\
    isComplete this w' = Some (false, w') /\
    (exists o, heap w' !! this = Some o /\ completion o = f /\ record_ok this o) /\
    (forall q, q <> this -> heap w' !! q = heap w !! q) /\
    trace w' = trace w /\ pending w' = pending w /\ app w' = app w.
Proof.
  rewrite PublishCallback_new_with_spec.
  set (o := mkPublishCallback _ false f).
  eexists. split; [reflexivity|]. split_and!; try done.
  - erewrite isComplete_live by apply lookup_insert_eq. done.
  - exists o. split; [apply lookup_insert_eq | done].
  - intros q Hq. by apply lookup_insert_ne.
Qed.

Lemma step_trampolines_only a w w' :
  step a w = Some (tt, w') ->
  records_ok w -> trampolines_only w -> trampolines_only w'.
Proof.
  unfold trampolines_only.
  assert (Hpub : forall this n d ttl f,
    publish_event this n d ttl f w = Some (tt, w') ->
    records_ok w ->
    Forall (fun r => reg_callback r = staticCallback_ptr) (pending w) ->
    Forall (fun r => reg_callback r = staticCallback_ptr) (pending w')).
  { intros this n d ttl f Hrun Hok Hall.
    destruct (publish_event_returns_live _ _ _ _ _ _ _ Hrun) as [o Ho].
    destruct (publish_event_spec this n d ttl f w o Ho)
      as (w2 & Hrun2 & _ & _ & Hp & _).
    rewrite Hrun in Hrun2. injection Hrun2 as <-. rewrite Hp.
    apply Forall_app. split; [done|].
    destruct (accepts _ _ _ _ _ _ _); [|constructor].
    constructor; [|constructor]. cbn. by rewrite (Hok this o Ho). }
  assert (Hcb : forall e d cb r,
    staticCallback e d cb r w = Some (tt, w') -> pending w' = pending w).
  { intros e d cb r Hrun.
    destruct (staticCallback_returns_live _ _ _ _ _ _ Hrun) as [o Ho].
    destruct (staticCallback_spec e d cb r w o Ho) as (w2 & Hrun2 & _ & _ & Hp & _).
    rewrite Hrun in Hrun2. by injection Hrun2 as <-. }
  destruct a as [this raw|this raw g|this|this g|this n f1 f2|this n d f1 f2
                |this n d ttl f1 f2|this n d ttl f|this|k e d|e d cb r];
    cbn [step]; intros Hrun Hok Hall.
  - rewrite PublishCallback_new_spec in Hrun. by injection Hrun as <-.
  - rewrite PublishCallback_new_with_spec in Hrun. by injection Hrun as <-.
  - unfold PublishCallback_delete, bind, load in Hrun.
    destruct (heap w !! this); [|done]. by injection Hrun as <-.
  - unfold withCallback, set_completion, bind, load, store, ret in Hrun.
    destruct (heap w !! this); [|done]. by injection Hrun as <-.
  - by eapply Hpub.
  - by eapply Hpub.
  - by eapply Hpub.
  - by eapply Hpub.
  - unfold isComplete, bind, load, ret in Hrun.
    destruct (heap w !! this); [|done]. by injection Hrun as <-.
  - destruct (deliver_returns _ _ _ _ _ Hrun) as (reg & o & Hk & Hptr & Ho).
    destruct (deliver_spec k e d w reg o Hk Hptr Ho)
      as (w2 & Hrun2 & _ & _ & Hp & _).
    rewrite Hrun in Hrun2. injection Hrun2 as <-. rewrite Hp.
    by apply Forall_delete.
  - by rewrite (Hcb _ _ _ _ Hrun).
Qed.

Lemma run_trampolines_only acts w w' :
  run acts w = Some (tt, w') ->
  records_ok w -> trampolines_only w -> trampolines_only w'.
Proof.
  revert w. induction acts as [|a rest IH]; intros w; cbn [run].
  - unfold ret. by intros [= <-].
  - unfold bind. destruct (step a w) as [[[] w1]|] eqn:Hstep; [|done].
    intros Hrun Hok Hall. eapply IH; [exact Hrun| |].
    + by eapply step_records_ok.
    + by eapply step_trampolines_only.
Qed.

(** X6: in any program over the class that starts with no adapter and
    nothing owed, every callback Device OS owes at the end is a call of the
    trampoline; as long as the adapter it is for is live, Device OS can pay
    it with any outcome, and paying it leaves that adapter complete. *)
Theorem owed_callback_can_be_paid acts w w' k r o error data :
  heap w = ∅ ->
  pending w = [] ->
  run acts w = Some (tt, w') ->
  pending w' !! k = Some r ->
  heap w' !! reg_data r = Some o ->
  reg_callback r = staticCallback_ptr /\
  exists w'',
    deliver k error data w' = Some (tt, w'') /\
    isComplete (reg_data r) w'' = Some (true, w'') /\
    pending w'' = delete k (pending w').
Proof.
  intros Hempty Hnone Hrun Hk Ho.
  assert (Hok : records_ok w).
  { intros q oq Hq. rewrite Hempty in Hq. by rewrite lookup_empty in Hq. }
  assert (Hall : trampolines_only w).
  { unfold trampolines_only. rewrite Hnone. constructor. }
  pose proof (run_trampolines_only acts w w' Hrun Hok Hall) as Hall'.
  unfold trampolines_only in Hall'. rewrite Forall_lookup in Hall'.
  pose proof (Hall' k r Hk) as Hptr. split; [done|].
  destruct (deliver_spec k error data w' r o Hk Hptr Ho)
    as (w'' & Hd & Hh & _ & Hp & _).
  exists w''. split_and!; try done.
  erewrite isComplete_live by (rewrite Hh; apply lookup_insert_eq). done.
Qed.

(** X7: the adapter must outlive the callback.  Once an adapter is
    destroyed, a callback Device OS still owes to it has no defined
    behaviour: the trampoline reads a member through a pointer to no
    object. *)
Theorem callback_after_delete_is_undefined this k error data w o r :
  heap w !! this = Some o ->
  pending w !! k = Some r ->
  reg_data r = this ->
  exists w1,
    PublishCallback_delete this w = Some (tt, w1) /\
    pending w1 = pending w /\
    deliver k error data w1 = None.
Proof.
  intros Ho Hk Hr.
  unfold PublishCallback_delete, bind. rewrite (load_live _ _ _ Ho).
  eexists. split; [reflexivity|]. split; [done|].
  unfold deliver. cbn [pending]. rewrite Hk.
  destruct (reg_callback r); cbn [call_callback]; [|done].
  unfold staticCallback, bind, load. cbn [heap]. rewrite Hr.
  by rewrite lookup_delete_eq.
Qed.

End MoreFacts.

(** * The example driver *)

Section DriverFacts.

Context `{fw : Firmware}.

Implicit Types (w : World) (o : PublishCallback) (g : Globals).

Lemma string_length_app (s1 s2 : string) :
  String.length (s1 +:+ s2) = (String.length s1 + String.length s2)%nat.
Proof. induction s1 as [|c s1 IH]; simpl; [done|]. by f_equal. Qed.

Lemma substring_whole (n : nat) (s : string) :
  (String.length s <= n)%nat -> String.substring 0 n s = s.
Proof.
  revert n. induction s as [|c s IH]; intros [|n] Hn; cbn in *; try done; try lia.
  f_equal. apply IH. lia.
Qed.

Lemma dec_digits_length (fuel : nat) (n : Z) :
  (String.length (dec_digits fuel n) <= fuel)%nat.
Proof.
  revert n. induction fuel as [|fuel IH]; intros n; cbn [dec_digits]; [done|].
  destruct (n <? 10); cbn; [lia|].
  rewrite string_length_app. cbn. specialize (IH (n / 10)). lia.
Qed.

Lemma format_d_length (n : Z) : (String.length (format_d n) <= 11)%nat.
Proof.
  unfold format_d. destruct (n <? 0); cbn [String.length].
  - pose proof (dec_digits_length 10 (- n)). lia.
  - pose proof (dec_digits_length 10 n). lia.
Qed.

Lemma counter_text_fits (c : Z) :
  snprintf 64 ("counter=" +:+ format_d c) = "counter=" +:+ format_d c.
Proof.
  unfold snprintf. apply substring_whole.
  rewrite string_length_app. pose proof (format_d_length c). cbn. lia.
Qed.

(** X8: the 64-byte buffer of [loop] never cuts the payload short:
    whatever the counter, [snprintf] leaves in the buffer the whole text
    [counter=] followed by the number. *)
Theorem payload_fits_buffer (c : Z) :
  snprintf 64 ("counter=" +:+ format_d c) = "counter=" +:+ format_d c.
Proof. exact (counter_text_fits c). Qed.

Lemma dec_value_app (acc : Z) (s1 s2 : string) :
  dec_value acc (s1 +:+ s2) = dec_value (dec_value acc s1) s2.
Proof. revert acc. induction s1 as [|c s1 IH]; intros acc; simpl; [done|]. apply IH. Qed.

Lemma digit_value_digit (d : Z) : 0 <= d < 10 -> digit_value (digit d) = d.
Proof.
  intros Hd. unfold digit_value, digit.
  rewrite nat_ascii_embedding by lia. lia.
Qed.

(** With enough fuel the digits printed denote the number printed. *)
Lemma dec_digits_value (fuel : nat) (n : Z) :
  0 <= n < 10 ^ Z.of_nat fuel -> dec_value 0 (dec_digits fuel n) = n.
Proof.
  revert n. induction fuel as [|fuel IH]; intros n Hn.
  - change (10 ^ Z.of_nat 0) with 1 in Hn. cbn. lia.
  - cbn [dec_digits]. destruct (Z.ltb_spec n 10) as [Hlt|Hge].
    + cbn [dec_value]. rewrite digit_value_digit by lia. lia.
    + rewrite dec_value_app. cbn [dec_value].
      rewrite IH.
      * rewrite digit_value_digit by (apply Z.mod_pos_bound; lia).
        pose proof (Z.div_mod n 10). lia.
      * split; [apply Z.div_pos; lia|].
        apply Z.div_lt_upper_bound; [lia|].
        rewrite Nat2Z.inj_succ, Z.pow_succ_r in Hn by lia. lia.
Qed.

(** A number that is not negative is printed without a minus sign. *)
Lemma dec_digits_head (fuel : nat) (n : Z) (s : string) :
  0 <= n -> dec_digits fuel n <> String "-"%char s.
Proof.
  revert n s. induction fuel as [|fuel IH]; intros n s Hn; cbn [dec_digits]; [done|].
  assert (Hdigit : forall d, 0 <= d < 10 -> digit d <> "-"%char).
  { intros d Hd Heq. apply (f_equal nat_of_ascii) in Heq.
    unfold digit in Heq. rewrite nat_ascii_embedding in Heq by lia.
    change (nat_of_ascii "-") with 45%nat in Heq. lia. }
  destruct (Z.ltb_spec n 10) as [Hlt|Hge].
  - intros [= Heq _]. by apply (Hdigit n).
  - destruct (dec_digits fuel (n / 10)) as [|c rest] eqn:Hs; simpl.
    + intros [= Heq _]. apply (Hdigit (n mod 10)); [|done].
      apply Z.mod_pos_bound. lia.
    + intros [= -> _]. apply (IH (n / 10) rest); [|done].
      apply Z.div_pos; lia.
Qed.

(** On the range of [int] the conversion loses nothing. *)
Lemma format_d_inj (a b : Z) :
  INT_MIN <= a <= INT_MAX -> INT_MIN <= b <= INT_MAX ->
  format_d a = format_d b -> a = b.
Proof.
  unfold INT_MIN, INT_MAX, format_d. intros Ha Hb.
  assert (Hval : forall x y, 0 <= x < 10 ^ 10 -> 0 <= y < 10 ^ 10 ->
            dec_digits 10 x = dec_digits 10 y -> x = y).
  { intros x y Hx Hy Heq.
    rewrite <- (dec_digits_value 10 x), <- (dec_digits_value 10 y) by exact Hx || exact Hy.
    by rewrite Heq. }
  destruct (Z.ltb_spec a 0) as [Ha0|Ha0], (Z.ltb_spec b 0) as [Hb0|Hb0]; intros Heq.
  - assert (Hd : dec_digits 10 (- a) = dec_digits 10 (- b)) by congruence.
    apply Hval in Hd; lia.
  - symmetry in Heq. by apply dec_digits_head in Heq.
  - by apply dec_digits_head in Heq.
  - apply Hval in Heq; lia.
Qed.

(** X15: the payload tells the counter.  Two values of the [int] counter
    whose payloads, as [loop] leaves them in its 64-byte buffer, are the
    same string are the same value. *)
Theorem payload_identifies_counter (a b : Z) :
  INT_MIN <= a <= INT_MAX ->
  INT_MIN <= b <= INT_MAX ->
  snprintf 64 ("counter=" +:+ format_d a) =
  snprintf 64 ("counter=" +:+ format_d b) ->
  a = b.
Proof.
  intros Ha Hb. rewrite !counter_text_fits. simpl.
  intros [= Heq]. by apply format_d_inj.
Qed.

Lemma due_mod (t0 t1 : Z) :
  t0 <= t1 ->
  t1 - t0 < ULONG_MODULUS ->
  due (t1 mod ULONG_MODULUS) (t0 mod ULONG_MODULUS) =
    (PUBLISH_INTERVAL_MS <=? t1 - t0).
Proof.
  intros Hle Hlt. unfold due. f_equal.
  rewrite <- Zminus_mod. apply Z.mod_small. lia.
Qed.

(** X9: the test of [loop] survives the roll-over of the 32-bit clock.  If
    the last publish was at time [t0] and the clock is read at a later time
    [t1], less than 2^32 ms after it, both known to the driver only modulo
    2^32, then the test succeeds exactly when at least 60000 ms have
    passed. *)
Theorem due_is_rollover_safe (t0 t1 : Z) :
  t0 <= t1 ->
  t1 - t0 < ULONG_MODULUS ->
  due (t1 mod ULONG_MODULUS) (t0 mod ULONG_MODULUS) =
    (PUBLISH_INTERVAL_MS <=? t1 - t0).
Proof. exact (due_mod t0 t1). Qed.

(** X10: within the interval [loop] does nothing at all.  If fewer than
    60000 ms have passed since the time recorded in [lastPublish], [loop]
    returns with the globals and the world untouched: no publish, no log
    line, whatever the connection state and the state of the adapter, and
    across a roll-over of the clock. *)
Theorem loop_waits_out_the_interval pub t0 t1 m2 connected g w :
  lastPublish g = t0 mod ULONG_MODULUS ->
  t0 <= t1 ->
  t1 - t0 < PUBLISH_INTERVAL_MS ->
  loop pub (t1 mod ULONG_MODULUS) m2 connected g w = Some (g, w).
Proof.
  intros Hlast Hle Hlt. unfold loop. rewrite Hlast.
  rewrite due_mod; [|done|unfold PUBLISH_INTERVAL_MS, ULONG_MODULUS in *; lia].
  by rewrite (proj2 (Z.leb_gt _ _) Hlt).
Qed.

(** X11: an interval that ends while the device is offline is lost.  When
    the interval has passed and [Particle.connected()] is false, [loop]
    publishes nothing, logs nothing and leaves the counter alone, but it
    does record the second clock reading in [lastPublish]: the next
    publish is tried a whole interval later, not as soon as the device is
    back online. *)
Theorem loop_offline_skips_the_interval pub t0 t1 m2 g w :
  lastPublish g = t0 mod ULONG_MODULUS ->
  t0 <= t1 ->
  PUBLISH_INTERVAL_MS <= t1 - t0 < ULONG_MODULUS ->
  loop pub (t1 mod ULONG_MODULUS) m2 false g w =
    Some (mkGlobals m2 (counter g), w).
Proof.
  intros Hlast Hle [Hge Hlt]. unfold loop. rewrite Hlast.
  rewrite due_mod by done.
  by rewrite (proj2 (Z.leb_le _ _) Hge).
Qed.

(** X12: when the interval has passed and the device is online, [loop]
    publishes once, whether or not an earlier publish of the adapter is
    still outstanding.  It increments the counter, logs the line
    [about to publish counter=N] first, and calls the primitive once with
    the event name [testEvent], the uncut payload [counter=N], a TTL of 60
    and the flags [PRIVATE | WITH_ACK] joined with the default of the
    second flag parameter.  If the primitive rejects, the handler runs at
    once with [Error::UNKNOWN] (the primitive and the handler find the
    flag of the adapter cleared); either way [isComplete] answers false
    when [loop] returns, and [lastPublish] holds the second clock
    reading. *)
Theorem loop_publishes_when_due pub m1 m2 g w o :
  due m1 (lastPublish g) = true ->
  counter g < INT_MAX ->
  heap w !! pub = Some o ->
  let c := counter g + 1 in
  let payload := "counter=" +:+ format_d c in
  let fl := flags_value (flags_or (flags_or PRIVATE WITH_ACK) flags_default) in
  let seen := <[pub := false]> (flag_view w) in
  let ok := accepts (trace w) seen (Some "testEvent"%string) (Some payload) 60 fl pub in
  let logged := log_info ("about to publish " +:+ payload) (app w) in
  exists w',
    loop pub m1 m2 true g w = Some (mkGlobals m2 c, w') /\
    trace w' =
      trace w ++ SendEvent (sends w) (Some "testEvent"%string) (Some payload) 60 fl pub ok ::
        (if ok then []
         else match completion o with
              | Some _ => [Completion (sends w) pub Error_UNKNOWN NULL]
              | None => []
              end) /\
    app w' =
      (if ok then logged
       else match completion o with
            | Some h => h Error_UNKNOWN NULL seen logged
            | None => logged
            end) /\
    sends w' = S (sends w) /\
    isComplete pub w' = Some (false, w').
Proof.
  intros Hdue Hc Ho c payload fl ok logged.
  unfold loop. rewrite Hdue, (proj2 (Z.ltb_lt _ _) Hc).
  rewrite counter_text_fits. fold c payload.
  unfold bind at 1, log.
  set (w0 := mkWorld _ _ _ _ _ _).
  assert (H0 : heap w0 !! pub = Some o) by exact Ho.
  destruct (publish_event_spec pub (Some "testEvent"%string) (Some payload) 60
              (flags_or (flags_or PRIVATE WITH_ACK) flags_default) w0 o H0)
    as (w' & Hrun & Hh & Htr & _ & Ha & Hs).
  unfold bind, publish4, publish5. rewrite Hrun.
  exists w'. split_and!; try done.
  erewrite isComplete_live by (rewrite Hh; apply lookup_insert_eq). done.
Qed.

(** X13: [setup] installs a handler that logs the error code and ignores
    the payload.  After [setup], a call of the trampoline for the adapter
    with any error code and any payload appends the one line
    [callback called! err=N] to the log and leaves the adapter complete. *)
Theorem setup_then_callback_logs_error pub err data reserved w o :
  heap w !! pub = Some o ->
  exists w1 w2,
    setup pub w = Some (tt, w1) /\
    app w1 = app w /\
    isComplete pub w1 = Some (complete o, w1) /\
    staticCallback err data pub reserved w1 = Some (tt, w2) /\
    app w2 = log_info ("callback called! err=" +:+ format_d err) (app w) /\
    isComplete pub w2 = Some (true, w2).
Proof.
  intros Ho. unfold setup, bind.
  rewrite (withCallback_live pub _ w o Ho). unfold ret.
  set (w1 := mkWorld _ _ _ _ _ _).
  assert (H1 : heap w1 !! pub =
               Some (mkPublishCallback (eventData o) (complete o) (Some setup_handler)))
    by apply lookup_insert_eq.
  destruct (staticCallback_spec err data pub reserved w1 _ H1)
    as (w2 & Hrun & Hh & _ & _ & Ha & _).
  exists w1, w2. split_and!; try done.
  - by rewrite (isComplete_live _ _ _ H1).
  - erewrite isComplete_live by (rewrite Hh; apply lookup_insert_eq). done.
Qed.

(** What one call of [loop] that returns does to the counter and to the
    number of calls of the primitive. *)
Lemma loop_counts pub m1 m2 connected g w g' w' :
  loop pub m1 m2 connected g w = Some (g', w') ->
  (counter g' = counter g /\ sends w' = sends w) \/
  (counter g' = counter g + 1 /\ sends w' = S (sends w)).
Proof.
  unfold loop. destruct (due m1 (lastPublish g)); [|unfold ret; intros [= <- <-]; by left].
  destruct connected; [|unfold ret; intros [= <- <-]; by left].
  destruct (counter g <? INT_MAX); [|done].
  unfold bind at 1, log. set (w0 := mkWorld _ _ _ _ _ _).
  unfold bind, publish4, publish5.
  destruct (publish_event pub _ _ _ _ w0) as [[[] w1]|] eqn:Hrun; [|done].
  unfold ret. intros [= <- <-]. right. split; [done|].
  destruct (publish_event_returns_live _ _ _ _ _ _ _ Hrun) as [o Ho].
  match type of Hrun with
  | publish_event ?p ?n ?d ?t ?f ?x = _ =>
      destruct (publish_event_spec p n d t f x o Ho)
        as (w2 & Hrun2 & _ & _ & _ & _ & Hs)
  end.
  rewrite Hrun in Hrun2. injection Hrun2 as <-. exact Hs.
Qed.

(** X14: the counter numbers the publishes.  Over any sequence of calls of
    [loop] and of callbacks paid by Device OS that runs to its end, the
    counter grows by exactly the number of calls of the primitive made;
    started with both at zero, the counter is the number of calls made. *)
Theorem drive_counter_counts_publishes pub ticks g w g' w' :
  drive pub ticks g w = Some (g', w') ->
  counter g' - counter g = Z.of_nat (sends w') - Z.of_nat (sends w).
Proof.
  revert g w. induction ticks as [|[m1 m2 connected|k error data] rest IH];
    intros g w; cbn [drive].
  - unfold ret. intros [= <- <-]. lia.
  - unfold bind.
    destruct (loop pub m1 m2 connected g w) as [[g1 w1]|] eqn:Hloop; [|done].
    intros Hrest. specialize (IH _ _ Hrest).
    destruct (loop_counts _ _ _ _ _ _ _ _ Hloop) as [[Hc Hs]|[Hc Hs]]; lia.
  - unfold bind.
    destruct (deliver k error data w) as [[[] w1]|] eqn:Hd; [|done].
    intros Hrest. specialize (IH _ _ Hrest).
    destruct (deliver_returns _ _ _ _ _ Hd) as (reg & o & Hk & Hptr & Ho).
    destruct (deliver_spec k error data w reg o Hk Hptr Ho)
      as (w2 & Hd2 & _ & _ & _ & _ & Hs).
    rewrite Hd in Hd2. injection Hd2 as <-. lia.
Qed.

End DriverFacts.

(** * The further theorems applied *)

Example format_d_extremes :
  format_d INT_MIN = "-2147483648"%string /\
  format_d 0 = "0"%string /\
  format_d INT_MAX = "2147483647"%string.
Proof. vm_compute. done. Qed.

Example driver_day :
  fst driver_end = mkGlobals 60001 2 /\
  app (snd driver_end) =
    ["about to publish counter=1"; "callback called! err=0";
     "about to publish counter=2"; "callback called! err=-100"]%string /\
  trace (snd driver_end) =
    [SendEvent 0 (Some "testEvent"%string) (Some "counter=1"%string) 60 10 32 true;
     Completion 0 32 0 0;
     SendEvent 1 (Some "testEvent"%string) (Some "counter=2"%string) 60 10 32 false;
     Completion 1 32 (-100) 0].
Proof. vm_compute. done. Qed.

Section AppliedMore.

#[local] Existing Instance demoOS.

Lemma accepted_publish_then_callback_witness :
  exists w1 w2,
    publish_event 16 (Some "testEvent"%string) None 60 (3 : @PublishFlags demoOS)
      demo_live = Some (tt, w1) /\
    app w1 = app demo_live /\
    trace w1 = trace demo_live ++
      [SendEvent (sends demo_live) (Some "testEvent"%string) None 60 3 16 true] /\
    isComplete 16 w1 = Some (false, w1) /\
    deliver (length (pending demo_live)) 0 4096 w1 = Some (tt, w2) /\
    trace w2 = trace w1 ++ [Completion (sends demo_live) 16 0 4096] /\
    app w2 = [(0, 4096)] /\
    pending w2 = pending demo_live /\
    isComplete 16 w2 = Some (true, w2).
Proof.
  apply (accepted_publish_then_callback (os := demoOS) 16
           (Some "testEvent"%string) None 60 3 0 4096 demo_live demo_adapter).
  - vm_compute. reflexivity.
  - reflexivity.
  - reflexivity.
Defined.

Lemma handler_is_read_at_callback_time_witness :
  exists w1 w2 w3,
    publish_event 16 (Some "testEvent"%string) None 60 (3 : @PublishFlags demoOS)
      demo_live = Some (tt, w1) /\
    withCallback 16 (Some (fun error data _ l => (7, 7) :: l)) w1 = Some (16, w2) /\
    deliver (length (pending demo_live)) 0 4096 w2 = Some (tt, w3) /\
    app w3 = [(7, 7)] /\
    trace w3 = trace demo_live ++
      [SendEvent (sends demo_live) (Some "testEvent"%string) None 60 3 16 true;
       Completion (sends demo_live) 16 0 4096] /\
    isComplete 16 w3 = Some (true, w3).
Proof.
  apply (handler_is_read_at_callback_time (os := demoOS) 16
           (Some "testEvent"%string) None 60 3
           (fun error data _ l => (7, 7) :: l) 0 4096 demo_live demo_adapter).
  - vm_compute. reflexivity.
  - reflexivity.
  - reflexivity.
Defined.

Lemma overlapping_publishes_settle_early_witness :
  exists w1 w2 w3,
    publish_event 16 (Some "testEvent"%string) (Some "counter=1"%string) 60
      (3 : @PublishFlags demoOS) demo_live = Some (tt, w1) /\
    publish_event 16 (Some "testEvent"%string) (Some "counter=2"%string) 60
      (3 : @PublishFlags demoOS) w1 = Some (tt, w2) /\
    deliver (length (pending demo_live)) 0 4096 w2 = Some (tt, w3) /\
    isComplete 16 w3 = Some (true, w3) /\
    pending w3 = pending demo_live ++ [mkRegistration staticCallback_ptr 16 1].
Proof.
  apply (overlapping_publishes_settle_early (os := demoOS) 16
           (Some "testEvent"%string) (Some "counter=1"%string) 60 3
           (Some "testEvent"%string) (Some "counter=2"%string) 60 3
           0 4096 demo_live demo_adapter).
  - vm_compute. reflexivity.
  - reflexivity.
  - reflexivity.
  - reflexivity.
Defined.

Lemma publishes_and_callbacks_keep_handlers_witness :
  (forall q o, heap demo_live !! q = Some o ->
     exists o', heap (final demo_polled demo_live) !! q = Some o' /\
                eventData o' = eventData o /\ completion o' = completion o) /\
  (forall q, heap demo_live !! q = None ->
     heap (final demo_polled demo_live) !! q = None).
Proof.
  apply (publishes_and_callbacks_keep_handlers (os := demoOS) demo_polled
           demo_live (final demo_polled demo_live)).
  - reflexivity.
  - vm_compute. reflexivity.
Defined.

Lemma owed_callback_can_be_paid_witness :
  reg_callback (mkRegistration staticCallback_ptr 16 0) = staticCallback_ptr /\
  exists w'',
    deliver 0 (-160) 0 (final demo_published demo_boot) = Some (tt, w'') /\
    isComplete (reg_data (mkRegistration staticCallback_ptr 16 0)) w'' =
      Some (true, w'') /\
    pending w'' = delete 0%nat (pending (final demo_published demo_boot)).
Proof.
  apply (owed_callback_can_be_paid (os := demoOS) demo_published demo_boot
           (final demo_published demo_boot) 0
           (mkRegistration staticCallback_ptr 16 0) demo_adapter (-160) 0).
  - reflexivity.
  - reflexivity.
  - vm_compute. reflexivity.
  - vm_compute. reflexivity.
  - vm_compute. reflexivity.
Defined.

Lemma callback_after_delete_is_undefined_witness :
  exists w1,
    PublishCallback_delete 16 (final demo_published demo_boot) = Some (tt, w1) /\
    pending w1 = pending (final demo_published demo_boot) /\
    deliver 0 0 4096 w1 = None.
Proof.
  apply (callback_after_delete_is_undefined (os := demoOS) 16 0 0 4096
           (final demo_published demo_boot) demo_adapter
           (mkRegistration staticCallback_ptr 16 0)).
  - vm_compute. reflexivity.
  - vm_compute. reflexivity.
  - reflexivity.
Defined.

End AppliedMore.

Section AppliedDriver.

#[local] Existing Instance driverOS.
#[local] Existing Instance driverFW.

Lemma due_is_rollover_safe_witness :
  due ((2 ^ 32 + 59990) mod ULONG_MODULUS) ((2 ^ 32 - 10) mod ULONG_MODULUS) =
    (PUBLISH_INTERVAL_MS <=? (2 ^ 32 + 59990) - (2 ^ 32 - 10)).
Proof.
  apply (due_is_rollover_safe (2 ^ 32 - 10) (2 ^ 32 + 59990)).
  - lia.
  - vm_compute. reflexivity.
Defined.

Lemma loop_waits_out_the_interval_witness :
  loop 32 ((2 ^ 32 + 59989) mod ULONG_MODULUS) 7 true
       (mkGlobals 4294967286 5) driver_boot =
    Some (mkGlobals 4294967286 5, driver_boot).
Proof.
  apply (loop_waits_out_the_interval (fw := driverFW) 32 (2 ^ 32 - 10)
           (2 ^ 32 + 59989) 7 true (mkGlobals 4294967286 5) driver_boot).
  - reflexivity.
  - lia.
  - vm_compute. reflexivity.
Defined.

Lemma loop_offline_skips_the_interval_witness :
  loop 32 ((2 ^ 32 + 59990) mod ULONG_MODULUS) 59993 false
       (mkGlobals 4294967286 5) driver_boot =
    Some (mkGlobals 59993 (counter (mkGlobals 4294967286 5)), driver_boot).
Proof.
  apply (loop_offline_skips_the_interval (fw := driverFW) 32 (2 ^ 32 - 10)
           (2 ^ 32 + 59990) 59993 (mkGlobals 4294967286 5) driver_boot).
  - reflexivity.
  - lia.
  - unfold PUBLISH_INTERVAL_MS, ULONG_MODULUS. lia.
Defined.

Lemma loop_publishes_when_due_witness :
  exists w',
    loop 32 60000 60003 true initial_globals driver_boot =
      Some (mkGlobals 60003 1, w') /\
    trace w' =
      [SendEvent 0 (Some "testEvent"%string) (Some "counter=1"%string) 60 10 32 true] /\
    app w' = ["about to publish counter=1"%string] /\
    sends w' = 1%nat /\
    isComplete 32 w' = Some (false, w').
Proof.
  apply (loop_publishes_when_due (fw := driverFW) 32 60000 60003
           initial_globals driver_boot driver_adapter).
  - reflexivity.
  - reflexivity.
  - vm_compute. reflexivity.
Defined.

Lemma setup_then_callback_logs_error_witness :
  exists w1 w2,
    setup 32 driver_boot = Some (tt, w1) /\
    app w1 = app driver_boot /\
    isComplete 32 w1 = Some (false, w1) /\
    staticCallback (-160) 4096 32 0 w1 = Some (tt, w2) /\
    app w2 = ["callback called! err=-160"%string] /\
    isComplete 32 w2 = Some (true, w2).
Proof.
  apply (setup_then_callback_logs_error (fw := driverFW) 32 (-160) 4096 0
           driver_boot driver_adapter).
  vm_compute. reflexivity.
Defined.

Lemma payload_identifies_counter_witness : 2147483647 = 2147483647.
Proof.
  apply (payload_identifies_counter 2147483647 2147483647).
  - unfold INT_MIN, INT_MAX. lia.
  - unfold INT_MIN, INT_MAX. lia.
  - reflexivity.
Defined.

Lemma drive_counter_counts_publishes_witness :
  counter (fst driver_end) - counter initial_globals =
    Z.of_nat (sends (snd driver_end)) - Z.of_nat (sends driver_boot).
Proof.
  apply (drive_counter_counts_publishes (fw := driverFW) 32 driver_ticks
           initial_globals driver_boot (fst driver_end) (snd driver_end)).
  vm_compute. reflexivity.
Defined.

End AppliedDriver.
